(** * Global-mean sea-surface temperature script (0.global_tos.py)

    A shallow embedding of the script's helper functions, of the weighted
    global-mean reduction and of its driver loop, together with the
    properties the specification states about them.

    Conventions of the embedding:
    - Python exceptions are values of [exn]; a computation that may raise
      has type [result A] (left: the exception raised, right: the value
      returned).
    - The arrays hold numbers of a type [F] with the arithmetic of the
      array library as a parameter ([Arith]): binary64 floats with their
      own operations, or real numbers with every operation followed by a
      rounding; exact real arithmetic is the rounding that changes nothing.
    - pandas data frames that the script mutates in place live in a store
      ([heap]) and are passed by reference.
    - The library functions that reach outside the process (opening a Zarr
      store, formatting and averaging timestamps, writing a CSV file) are
      parameters of the development. *)

From Stdlib Require Import String Ascii List ZArith Lia Reals Lra.
From Stdlib Require PrimFloat Uint63.
From stdpp Require Import base option list strings gmap.

Open Scope string_scope.
Open Scope list_scope.

(** ** Exceptions and results *)

Inductive exn : Type :=
  | TypeError (msg : string)
  | IndexError (msg : string)
  | KeyError (key : string)
  | AttributeError (name : string)
  | RuntimeError (msg : string)
  | ValueError (msg : string)
  | MergeError (msg : string)
  | IOError (msg : string).

Definition result (A : Type) : Type := exn + A.

Definition ret {A} (a : A) : result A := inr a.
Definition raise {A} (e : exn) : result A := inl e.

Definition bind {A B} (m : result A) (k : A -> result B) : result B :=
  match m with
  | inl e => inl e
  | inr a => k a
  end.

Notation "'let!' x ':=' m 'in' k" := (bind m (fun x => k))
  (at level 10, x name, m at level 100, k at level 200).

Definition raises {A} (m : result A) : Prop := exists e, m = inl e.

(** ** Python strings *)

Module Py.

(** The Python values [selstr] may receive as its first argument. *)
Inductive obj : Type :=
  | Str (s : string)
  | Int (z : Z)
  | NoneObj
  | List (l : list string).

(** [a[i]] on a string: negative indices count from the end, anything
    outside [-len, len) raises IndexError. *)
Definition getitem (a : string) (i : Z) : result ascii :=
  let n := Z.of_nat (String.length a) in
  let k := if (i <? 0)%Z then (i + n)%Z else i in
  if ((k <? 0) || (n <=? k))%Z
  then raise (IndexError "string index out of range")
  else match String.get (Z.to_nat k) a with
       | Some c => ret c
       | None => raise (IndexError "string index out of range")
       end.

(** [range(start, stop)] *)
Definition range (start stop : Z) : list Z :=
  map (fun k => (start + Z.of_nat k)%Z) (seq 0 (Z.to_nat (stop - start))).

(** [str.replace(old, new)] for a non-empty [old]: scan left to right,
    replace every non-overlapping occurrence.  [skip] counts the
    characters of the current occurrence still to be passed over. *)
Fixpoint replace_go (old new : string) (skip : nat) (s : string) : string :=
  match s with
  | EmptyString => EmptyString
  | String c s' =>
      match skip with
      | S k => replace_go old new k s'
      | O =>
          if String.prefix old s
          then new +:+ replace_go old new (String.length old - 1) s'
          else String c (replace_go old new 0 s')
      end
  end.

(** With an empty [old], Python inserts [new] before every character and
    at the end. *)
Fixpoint intersperse_before (new s : string) : string :=
  match s with
  | EmptyString => new
  | String c s' => new +:+ String c (intersperse_before new s')
  end.

Definition replace (s old new : string) : string :=
  match old with
  | EmptyString => intersperse_before new s
  | _ => replace_go old new 0 s
  end.

(** [c in s] for a character and a string. *)
Fixpoint mem (c : ascii) (s : string) : bool :=
  match s with
  | EmptyString => false
  | String d s' => if Ascii.eqb c d then true else mem c s'
  end.

End Py.

(** ** [selstr] *)

(** The loop [for i in range(start, stop): out.append(a[i])]. *)
Fixpoint selstr_loop (a : string) (idx : list Z) (out : list ascii)
  : result (list ascii) :=
  match idx with
  | [] => ret out
  | i :: idx' =>
      let! c := Py.getitem a i in
      selstr_loop a idx' (out ++ [c])
  end.

Definition selstr (a : Py.obj) (start stop : Z) : result string :=
  match a with
  | Py.Str s =>
      let! out := selstr_loop s (Py.range start stop) [] in
      ret (string_of_list_ascii out)
  | _ => raise (TypeError "a: must be a single string")
  end.

(** An index Python accepts on [s]. *)
Definition valid_index (s : string) (i : Z) : Prop :=
  (- Z.of_nat (String.length s) <= i < Z.of_nat (String.length s))%Z.

(** The character a valid index designates: indices below zero count from
    the end of the string. *)
Definition char_at (s : string) (i : Z) : ascii :=
  match String.get (Z.to_nat (i mod Z.of_nat (String.length s))) s with
  | Some c => c
  | None => Ascii.zero
  end.

(** ** Output file name *)

Definition outdir : string := "./global/".

(** Lines 140-141 of the driver loop. *)
Definition ofile (file : string) : string :=
  let ofile := outdir +:+ Py.replace file "/" "_" +:+ ".csv" in
  Py.replace ofile "gs:__cmip6_" "".

(** ** pandas data frames *)

Module Pd.

(** A cell of a table: a string, an integer, a float, or an array object
    (the variable or coordinate of a dataset, kept by its name). *)
Inductive cell : Type :=
  | CStr (s : string)
  | CInt (z : Z)
  | CNum (x : R)
  | CObj (name : string).

(** Equality of join keys.  An integer key matches the float of the same
    value; a string never matches a number (pandas refuses to merge a
    string column with a numeric one; the script's only key is the
    integer column "j"). *)
Definition cell_eqb (a b : cell) : bool :=
  match a, b with
  | CStr s, CStr t => String.eqb s t
  | CInt x, CInt y => Z.eqb x y
  | CNum x, CNum y => if Req_dec_T x y then true else false
  | CInt x, CNum y | CNum y, CInt x => if Req_dec_T (IZR x) y then true else false
  | _, _ => false
  end.

(** A row keeps its cells under their column labels, in column order. *)
Abbreviation row := (list (string * cell)).

Record DataFrame : Type := mkDataFrame {
  columns : list string;
  rows : list row
}.

(** Every row carries exactly the frame's columns, each label once. *)
Definition wf (df : DataFrame) : Prop :=
  NoDup (columns df) /\ Forall (fun r => map fst r = columns df) (rows df).

Definition row_get (name : string) (r : row) : option cell :=
  match find (fun kv => String.eqb name (fst kv)) r with
  | Some kv => Some (snd kv)
  | None => None
  end.

Definition row_has (name : string) (r : row) : bool :=
  existsb (fun kv => String.eqb name (fst kv)) r.

Definition row_set (name : string) (v : cell) (r : row) : row :=
  if row_has name r
  then map (fun kv => if String.eqb name (fst kv) then (name, v) else kv) r
  else r ++ [(name, v)].

Definition row_drop (names : list string) (r : row) : row :=
  filter (fun kv => fst kv ∉ names) r.

(** [df[name] = v] with a scalar [v]: the column is overwritten in place
    when it exists and appended as the last column otherwise. *)
Definition setitem (name : string) (v : cell) (df : DataFrame) : DataFrame :=
  {| columns := if decide (name ∈ columns df) then columns df
                else columns df ++ [name];
     rows := map (row_set name v) (rows df) |}.

Definition keys_match (keys : list string) (l r : row) : bool :=
  forallb (fun k => match row_get k l, row_get k r with
                    | Some a, Some b => cell_eqb a b
                    | _, _ => false
                    end) keys.

(** [left.merge(right)] with the defaults: an inner join on the columns
    the two frames have in common; the result keeps the left columns and
    then the right columns that are not keys, its rows in the order of
    the left rows. *)
Definition merge (left right : DataFrame) : result DataFrame :=
  let keys := filter (fun c => c ∈ columns right) (columns left) in
  match keys with
  | [] => raise (MergeError "No common columns to perform merge on")
  | _ =>
      ret {| columns := columns left ++ filter (fun c => c ∉ keys) (columns right);
             rows := flat_map (fun l =>
                       flat_map (fun r =>
                         if keys_match keys l r
                         then [l ++ row_drop keys r] else [])
                       (rows right))
                     (rows left) |}
  end.

(** [df.drop(columns=name)] *)
Definition drop_columns (name : string) (df : DataFrame) : result DataFrame :=
  if decide (name ∈ columns df)
  then ret {| columns := filter (fun c => c ∉ [name]) (columns df);
              rows := map (row_drop [name]) (rows df) |}
  else raise (KeyError name).

(** [pd.DataFrame(data)] from a list of records. *)
Definition of_records (cols : list string) (data : list row) : DataFrame :=
  {| columns := cols; rows := data |}.

(** [pd.DataFrame(data={a: xs, b: ys})] from two columns, which must
    have the same length. *)
Definition of_columns2 (a : string) (xs : list cell) (b : string) (ys : list cell)
  : result DataFrame :=
  if Nat.eqb (length xs) (length ys)
  then ret {| columns := [a; b];
              rows := zip_with (fun x y => [(a, x); (b, y)]) xs ys |}
  else raise (ValueError "All arrays must be of the same length").

(** The store of data frames; a Python variable holds a location. *)
Abbreviation loc := nat.
Abbreviation heap := (gmap nat DataFrame).

Definition column_is (name : string) (v : cell) (df : DataFrame) : Prop :=
  name ∈ columns df /\ Forall (fun r => row_get name r = Some v) (rows df).

End Pd.

Import Pd.

(** ** [combine_df] *)

(** The two arguments are references into the store: the assignments of
    lines 90-91 update the callers' frames.  [None] stands for a call on a
    dangling reference, which Python cannot express. *)
Definition combine_df (df1 df2 : loc) (h : heap)
  : option (heap * result DataFrame) :=
  match h !! df1 with
  | None => None
  | Some d1 =>
      let h := <[df1 := setitem "j" (CInt 1) d1]> h in
      match h !! df2 with
      | None => None
      | Some d2 =>
          let h := <[df2 := setitem "j" (CInt 1) d2]> h in
          match h !! df1, h !! df2 with
          | Some a, Some b =>
              Some (h, let! out := merge a b in drop_columns "j" out)
          | _, _ => None
          end
      end
  end.

(** Sample tables: a one-row table of metadata and a table of yearly
    values, with no column in common. *)
Definition A0 : DataFrame := of_records ["model"] [[("model", CStr "m1")]].
Definition B0 : DataFrame :=
  of_records ["year"; "value"]
    [[("year", CStr "2005"); ("value", CInt 1)];
     [("year", CStr "2006"); ("value", CInt 2)]].
Definition h0 : heap := <[1%nat := B0]> (<[0%nat := A0]> ∅).

(** Sample tables that both have a column "model". *)
Definition A1 : DataFrame := of_records ["model"] [[("model", CStr "m1")]].
Definition B1 : DataFrame :=
  of_records ["model"; "value"]
    [[("model", CStr "m1"); ("value", CInt 1)];
     [("model", CStr "m2"); ("value", CInt 2)]].
Definition h1 : heap := <[1%nat := B1]> (<[0%nat := A1]> ∅).

(** The row-wise cross product of two tables, the column "j" left out. *)
Definition cross (ra rb : list row) : list row :=
  flat_map (fun a => map (fun b => row_drop ["j"] a ++ row_drop ["j"] b) rb) ra.

(** ** Arrays of floats *)

(** The arithmetic of the array library on numbers of type [F]: zero, the
    three operations the script uses, the float of a count, and the cosine
    of an angle given in degrees, [np.cos(np.deg2rad(x))]. *)
Record Arith (F : Type) : Type := mkArith {
  a_zero : F;
  a_add : F -> F -> F;
  a_mul : F -> F -> F;
  a_div : F -> F -> F;
  a_of_nat : nat -> F;
  a_cosd : F -> F
}.
Arguments a_zero {F} _.
Arguments a_add {F} _ _ _.
Arguments a_mul {F} _ _ _.
Arguments a_div {F} _ _ _.
Arguments a_of_nat {F} _ _.
Arguments a_cosd {F} _ _.
Arguments mkArith {F} _ _ _ _ _ _.

Section Kernel.

Context {F : Type}.
Variable ar : Arith F.

(** The sum of an array, its elements added in index order: the order of
    the array library on arrays of fewer than eight elements; on longer
    arrays it adds by blocks, which can change the last digits of the
    result but not the bounds on its rounding error. *)
Definition sum_in (xs : list F) : F := fold_left (a_add ar) xs (a_zero ar).

(** [x.mean()] over all the elements of an array: the sum divided by the
    count. *)
Definition mean_in (xs : list F) : F :=
  a_div ar (sum_in xs) (a_of_nat ar (length xs)).

(** Lines 113-114: [weight = np.cos(np.deg2rad(lat)); weight /= weight.mean()]. *)
Definition lat_weights_in (lat : list F) : list F :=
  let weight := map (a_cosd ar) lat in
  let m := mean_in weight in
  map (fun w => a_div ar w m) weight.

(** [grid * weight], the weight broadcast along the longitude. *)
Definition times_weight (weight : list F) (grid : list (list F)) : list (list F) :=
  zip_with (fun w cells => map (fun x => a_mul ar x w) cells) weight grid.

(** [(ds * weight).mean(other_dims)] for one variable, given as one grid
    per time step with one row of cells per latitude: at every time step
    the mean over all the cells of the weighted grid. *)
Definition weighted_mean (weight : list F) (values : list (list (list F))) : list F :=
  map (fun grid => mean_in (concat (times_weight weight grid))) values.

End Kernel.

(** *** Binary64 floats *)

Module F64.

Import PrimFloat.

(** The operations of the processor; the cosine is the library's. *)
Definition binary64 (cosd : float -> float) : Arith float :=
  mkArith 0%float add mul div (fun n => of_uint63 (Uint63.of_Z (Z.of_nat n))) cosd.

(** [np.cos(np.deg2rad(x))] at the latitudes -30 and -20:
    0.8660254037844387 and 0.9396926207859084 (the table is read at these
    two latitudes only). *)
Definition cosd_table (x : float) : float :=
  if eqb x (-30)%float then 0x1.bb67ae8584cabp-1%float
  else if eqb x (-20)%float then 0x1.e11f642522d1cp-1%float
  else 1%float.

Definition arith64 : Arith float := binary64 cosd_table.

Definition lat_30_20 : list float := [(-30)%float; (-20)%float].

Definition one : float := 1%float.

(** The float just below 1: 1 - 2^-53, printed 0.99999999999999989. *)
Definition below_one : float := 0x1.fffffffffffffp-1%float.

(** Two years of months of a field that is 1.0 in every cell of a grid of
    two latitudes and one longitude. *)
Definition ones_24 : list (list (list float)) :=
  replicate 24 (replicate 2 (replicate 1 one)).

End F64.

(** *** Real numbers *)

Open Scope R_scope.

Definition sum (xs : list R) : R := fold_right Rplus 0 xs.

(** [x.mean()] over all the elements of an array, in exact arithmetic. *)
Definition mean (xs : list R) : R := sum xs / INR (length xs).

(** [np.deg2rad] *)
Definition deg2rad (x : R) : R := x * (PI / 180).

(** Lines 113-114 in exact arithmetic:
    [weight = np.cos(np.deg2rad(lat)); weight /= weight.mean()]. *)
Definition lat_weights (lat : list R) : list R :=
  let weight := map (fun x => cos (deg2rad x)) lat in
  let m := mean weight in
  map (fun w => w / m) weight.

(** Floats seen as the real numbers they stand for: every operation
    returns the rounding [rnd] of the exact result; a count is a float as
    it is.  [cosd] is the library's cosine of an angle in degrees on
    floats. *)
Definition rounded (rnd : R -> R) (cosd : R -> R) : Arith R :=
  mkArith 0 (fun a b => rnd (a + b)) (fun a b => rnd (a * b))
    (fun a b => rnd (a / b)) INR cosd.

(** Exact arithmetic: no operation rounds. *)
Definition exact : Arith R := rounded (fun x => x) (fun x => cos (deg2rad x)).

(** The standard model of floating-point arithmetic with unit roundoff
    [u]: a rounding changes a number by a relative error of at most [u].
    Binary64 with rounding to nearest satisfies it with u = 2^-53 as long
    as no result overflows or falls below the normal range. *)
Definition standard_model (rnd : R -> R) (u : R) : Prop :=
  forall x, exists d, Rabs d <= u /\ rnd x = x * (1 + d).

(** The smallest and the largest factor that [p] roundings of the
    numerator and [n] roundings of the denominator can leave on a
    quotient. *)
Definition factor_lo (u : R) (p n : nat) : R := (1 - u) ^ p / (1 + u) ^ n.
Definition factor_hi (u : R) (p n : nat) : R := (1 + u) ^ p / (1 - u) ^ n.

(** [a] is [b] up to such a factor. *)
Definition within (u : R) (p n : nat) (a b : R) : Prop :=
  exists q, factor_lo u p n <= q <= factor_hi u p n /\ a = q * b.

Close Scope R_scope.

(** ** Coarsening *)

(** The consecutive blocks of [window] elements a series is reshaped
    into. *)
Definition windows {A} (window : nat) (xs : list A) : list (list A) :=
  map (fun i => take window (drop (i * window) xs))
      (seq 0 (length xs / window)).

(** [x.coarsen(dim=window).agg()] along the time dimension with the
    default [boundary="exact"]: the length must be a multiple of the
    window.  The time coordinate is coarsened with every variable, and the
    average of its timestamps starts from their minimum, which an empty
    axis does not have: an empty series raises as well. *)
Definition coarsen {A} (window : nat) (agg : list A -> A) (xs : list A)
  : result (list A) :=
  if Nat.eqb (length xs mod window) 0
  then match xs with
       | [] => raise (ValueError "zero-size array to reduction operation fmin which has no identity")
       | _ => ret (map agg (windows window xs))
       end
  else raise (ValueError "Could not coarsen a dimension whose size is not a multiple of the window").

Fixpoint mapM {A B} (f : A -> result B) (l : list A) : result (list B) :=
  match l with
  | [] => ret []
  | a :: l' =>
      let! b := f a in
      let! bs := mapM f l' in
      ret (b :: bs)
  end.

(** ** xarray datasets *)

Module Xr.

(** A data variable on the dimensions (time, latitude, longitude): one
    grid per time step, one row of cells per latitude. *)
Record DataArray : Type := mkDataArray {
  da_attrs : gmap string string;
  da_values : list (list (list R))
}.

(** A dataset on a rectilinear grid: global attributes, the named
    one-dimensional spatial coordinates and the attributes of the
    coordinates, the time axis (the coordinate "time") and the data
    variables in their order. *)
Record Dataset (T : Type) : Type := mkDataset {
  attrs : gmap string string;
  coords : gmap string (list R);
  coord_attrs : gmap string (gmap string string);
  time : list T;
  data_vars : list (string * DataArray)
}.
Arguments attrs {T} _.
Arguments coords {T} _.
Arguments coord_attrs {T} _.
Arguments time {T} _.
Arguments data_vars {T} _.
Arguments mkDataset {T} _ _ _ _ _.

(** First entry under a name in an ordered mapping. *)
Fixpoint assoc {V} (name : string) (l : list (string * V)) : option V :=
  match l with
  | [] => None
  | (k, v) :: l' => if String.eqb name k then Some v else assoc name l'
  end.

(** The names of the coordinates of a dataset. *)
Definition is_coord {T} (ds : Dataset T) (name : string) : bool :=
  bool_decide (is_Some (coords ds !! name)) || String.eqb name "time".

(** [ds.name]: attribute-style access looks among the data variables,
    then among the coordinates, and only then in [attrs]; under the first
    two it finds the array object of that name, not a string. *)
Definition getattr {T} (ds : Dataset T) (name : string) : result cell :=
  match assoc name (data_vars ds) with
  | Some _ => ret (CObj name)
  | None =>
      if is_coord ds name then ret (CObj name)
      else match attrs ds !! name with
           | Some v => ret (CStr v)
           | None => raise (AttributeError name)
           end
  end.

(** No data variable and no coordinate carries the name of one of the
    attributes the script reads with [ds.name]: the usual layout of a
    store. *)
Definition unshadowed {T} (ds : Dataset T) : Prop :=
  Forall (fun name => assoc name (data_vars ds) = None /\ is_coord ds name = false)
         ["variable_id"; "experiment_id"; "source_id"].

(** [ds[name].attrs]: the attributes of the data variable or of the
    coordinate of that name. *)
Definition getitem_attrs {T} (ds : Dataset T) (name : string)
  : result (gmap string string) :=
  match assoc name (data_vars ds) with
  | Some da => ret (da_attrs da)
  | None =>
      if is_coord ds name then ret (default ∅ (coord_attrs ds !! name))
      else raise (KeyError name)
  end.

(** [d[key]] on a dictionary of strings *)
Definition dict_get (d : gmap string string) (key : string) : result string :=
  match d !! key with
  | Some v => ret v
  | None => raise (KeyError key)
  end.

(** [rslt[name]] among the variables of a reduced dataset *)
Definition getvar {V} (vars : list (string * V)) (name : string) : result V :=
  match assoc name vars with
  | Some v => ret v
  | None => raise (KeyError name)
  end.

(** A dataset reduced to the time dimension. *)
Record Reduced (T : Type) : Type := mkReduced {
  r_time : list T;
  r_vars : list (string * list R)
}.
Arguments r_time {T} _.
Arguments r_vars {T} _.
Arguments mkReduced {T} _ _.

Fixpoint mapM_vars {A B} (f : A -> result B) (l : list (string * A))
  : result (list (string * B)) :=
  match l with
  | [] => ret []
  | (k, a) :: l' =>
      let! b := f a in
      let! bs := mapM_vars f l' in
      ret ((k, b) :: bs)
  end.

End Xr.

Import Xr.

(** ** [get_lat_name] *)

Fixpoint first_coord {T} (ds : Dataset T) (names : list string) : result string :=
  match names with
  | [] => raise (RuntimeError "Couldn't find a latitude coordinate")
  | lat_name :: names' =>
      if decide (is_Some (coords ds !! lat_name))
      then ret lat_name
      else first_coord ds names'
  end.

Definition get_lat_name {T} (ds : Dataset T) : result string :=
  first_coord ds ["lat"; "latitude"].

(** ** [get_ds_meta] *)

(** The entries of the record are evaluated in the order of the source.
    [ds[v]] needs a name: a [variable_id] that resolved to an array object
    is not one, and the lookup raises. *)
Definition get_ds_meta {T} (ds : Dataset T) : result DataFrame :=
  let! v := getattr ds "variable_id" in
  let! experiment := getattr ds "experiment_id" in
  let! var_attrs := match v with
                    | CStr name => getitem_attrs ds name
                    | _ => raise (TypeError "unhashable type: 'DataArray'")
                    end in
  let! units := dict_get var_attrs "units" in
  let! ensemble := dict_get (attrs ds) "variant_label" in
  let! model := getattr ds "source_id" in
  ret (of_records ["variable"; "experiment"; "units"; "ensemble"; "model"]
         [[("variable", v);
           ("experiment", experiment);
           ("units", CStr units);
           ("ensemble", CStr ensemble);
           ("model", model)]]).

(** ** The libraries' side of the script *)

(** The arithmetic of the arrays, the timestamps (of type [T]), their
    average over a window and their formatting with "%Y%m%d" belong to
    the array library; so does the opening of a store, and the writing of
    a table, of which only the exception it may raise is kept. *)
Record Env (T : Type) : Type := mkEnv {
  arith : Arith R;
  time_mean : list T -> T;
  strftime : T -> string;
  open_zarr : string -> result (Dataset T);
  to_csv_error : DataFrame -> string -> option exn
}.
Arguments arith {T} _.
Arguments time_mean {T} _.
Arguments strftime {T} _.
Arguments open_zarr {T} _.
Arguments to_csv_error {T} _.
Arguments mkEnv {T} _ _ _ _ _.

(** ** [global_mean] and the driver loop *)

Section Reducer.

Context {T : Type}.
Variable env : Env T.

(** Line 116. *)
Definition reduce (ds : Dataset T) (weight : list R) : result (Reduced T) :=
  let! vars := mapM_vars
                (fun da => coarsen 12 (mean_in (arith env))
                             (weighted_mean (arith env) weight (da_values da)))
                (data_vars ds) in
  let! t := coarsen 12 (time_mean env) (time ds) in
  ret (mkReduced t vars).

Definition global_mean (path : string) : result DataFrame :=
  let! ds := open_zarr env path in
  let! meta := get_ds_meta ds in
  let! lat_name := get_lat_name ds in
  let! lat := match coords ds !! lat_name with
              | Some lat => ret lat
              | None => raise (KeyError lat_name)
              end in
  let weight := lat_weights_in (arith env) lat in
  let! rslt := reduce ds weight in
  let t := map (strftime env) (r_time rslt) in
  let! year := mapM (fun x => selstr (Py.Str x) 0 4) t in
  let! val := getvar (r_vars rslt) "tos" in
  let! df := of_columns2 "year" (map CStr year) "value" (map CNum val) in
  let h : heap := <[1%nat := df]> (<[0%nat := meta]> ∅) in
  let! out := match combine_df 0%nat 1%nat h with
              | Some (_, out) => out
              | None => raise (RuntimeError "unbound data frame")
              end in
  ret (setitem "area" (CStr "global") out).

(** What the run leaves behind: the tables written, in order, and the
    lines printed. *)
Record world : Type := mkWorld {
  written : list (string * DataFrame);
  stdout : list string
}.

(** The line of the [except] branch. *)
Definition problem (file : string) : string := "problem with " +:+ file.

(** The [try] block of one iteration. *)
Definition process (file : string) : result (string * DataFrame) :=
  let ofile := ofile file in
  let! out := global_mean file in
  match to_csv_error env out ofile with
  | Some e => raise e
  | None => ret (ofile, out)
  end.

(** One iteration of the loop, with its bare [except]. *)
Definition iteration (w : world) (file : string) : world :=
  match process file with
  | inr o => mkWorld (written w ++ [o]) (stdout w)
  | inl _ => mkWorld (written w) (stdout w ++ [problem file])
  end.

Definition driver (zstore : list string) (w : world) : world :=
  fold_left iteration zstore w.

(** The table an iteration writes, if any. *)
Definition output_of (file : string) : option (string * DataFrame) :=
  match process file with
  | inr o => Some o
  | inl _ => None
  end.

(** The line an iteration prints, if any. *)
Definition diagnostic_of (file : string) : option string :=
  match process file with
  | inr _ => None
  | inl _ => Some (problem file)
  end.

End Reducer.

(** ** A synthetic dataset *)

(** Timestamps are months counted from January 2005; a window's
    timestamp is the (integer) mean of its months, and a timestamp is
    formatted as year, month and the 16th day. *)
Definition demo_time_mean (ts : list nat) : nat :=
  (fold_right Nat.add 0 ts / length ts)%nat.

Definition digit (d : nat) : ascii := ascii_of_nat (48 + d mod 10).

Definition four_digits (n : nat) : string :=
  String (digit (n / 1000)) (String (digit (n / 100))
    (String (digit (n / 10)) (String (digit n) ""))).

Definition two_digits (n : nat) : string :=
  String (digit (n / 10)) (String (digit n) "").

Definition demo_strftime (t : nat) : string :=
  four_digits (2005 + t / 12) +:+ two_digits (t mod 12 + 1) +:+ "16".

Definition demo_attrs (variable_id : string) : gmap string string :=
  <["variable_id" := variable_id]>
    (<["experiment_id" := "historical"]>
       (<["variant_label" := "r1i1p1f1"]>
          (<["source_id" := "DEMO-ESM"]> ∅))).

Definition demo_coords : gmap string (list R) :=
  <["lat" := [-60; 0; 60]%R]> (<["lon" := [0; 180]%R]> ∅).

(** Two years of months, the value 1.0 in every cell. *)
Definition demo_field : DataArray :=
  mkDataArray (<["units" := "degC"]> ∅)
    (replicate 24 (replicate 3 (replicate 2 1%R))).

Definition demo_ds (variable_id : string) : Dataset nat :=
  mkDataset (demo_attrs variable_id) demo_coords ∅ (seq 0 24)
    [(variable_id, demo_field)].

Definition demo_open_zarr (variable_id : string) (path : string)
  : result (Dataset nat) :=
  if String.eqb path "gs://cmip6/demo"
  then ret (demo_ds variable_id)
  else raise (IOError "no such store").

Definition demo_to_csv_error (df : DataFrame) (path : string) : option exn := None.

Definition demo_env (variable_id : string) : Env nat :=
  mkEnv exact demo_time_mean demo_strftime (demo_open_zarr variable_id)
    demo_to_csv_error.

(** ** The catalog selection *)

(** [pat in s]: the string [pat] occurs somewhere in [s]. *)
Fixpoint contains (pat s : string) : bool :=
  match s with
  | EmptyString => String.prefix pat ""
  | String _ s' => String.prefix pat s || contains pat s'
  end.

(** A row of the catalog table, with the columns the script reads or
    queries. *)
Record entry : Type := mkEntry {
  source_id : string;
  experiment_id : string;
  variable_id : string;
  grid_label : string;
  member_id : string;
  zstore : string
}.

(** Line 26: [catalog.loc[catalog['member_id'].str.contains('p1')]], the
    rows kept in their order and renumbered. *)
Definition select_p1 (catalog : list entry) : list entry :=
  List.filter (fun e => contains "p1" (member_id e)) catalog.

(** Lines 26 and 138-145 on the table the catalog search of lines 24-25
    returned: the loop runs over the store column of the rows kept. *)
Definition main {T} (env : Env T) (searched : list entry) (w : world) : world :=
  driver env (map zstore (select_p1 searched)) w.

(** The table the reducer returns on the synthetic dataset (the empty
    table if it raised). *)
Definition demo_out : DataFrame :=
  match global_mean (demo_env "tos") "gs://cmip6/demo" with
  | inr out => out
  | inl _ => of_records [] []
  end.

(** The same dataset with 25 months. *)
Definition demo_ds_25 : Dataset nat :=
  mkDataset (demo_attrs "tos") demo_coords ∅ (seq 0 25)
    [("tos", mkDataArray (<["units" := "degC"]> ∅)
               (replicate 25 (replicate 3 (replicate 2 1%R))))].

Definition demo_env_25 : Env nat :=
  mkEnv exact demo_time_mean demo_strftime (fun _ => ret demo_ds_25)
    demo_to_csv_error.

(** A small catalog: two members of one model that carry "p1", and one
    that does not. *)
Definition demo_catalog : list entry :=
  [mkEntry "DEMO-ESM" "historical" "tos" "gn" "r1i1p1f1" "gs://cmip6/demo";
   mkEntry "DEMO-ESM" "historical" "tos" "gn" "r2i1p1f1" "gs://cmip6/demo2";
   mkEntry "DEMO-ESM" "historical" "tos" "gn" "r1i1p2f1" "gs://cmip6/demo3"].

(** * Properties *)

(** ** Worked examples *)

Example ofile_ex : ofile "gs://cmip6/historical/foo.zarr" = "./global/historical_foo.zarr.csv".
Proof. reflexivity. Qed.

Example selstr_ex : selstr (Py.Str "20050115") 0 4 = inr "2005".
Proof. reflexivity. Qed.

Example selstr_ex2 : selstr (Py.Str "abc") 0 5 = inl (IndexError "string index out of range").
Proof. reflexivity. Qed.

Example selstr_ex3 : selstr (Py.Str "abcd") (-1) 2 = inr "dab".
Proof. reflexivity. Qed.

Example replace_ex : Py.replace "aaa" "aa" "b" = "ba".
Proof. reflexivity. Qed.

Example combine_ex :
  snd <$> combine_df 0%nat 1%nat h0 =
  Some (inr {| columns := ["model"; "year"; "value"];
          rows := [[("model", CStr "m1"); ("year", CStr "2005"); ("value", CInt 1)];
                   [("model", CStr "m1"); ("year", CStr "2006"); ("value", CInt 2)]] |}).
Proof. vm_compute. reflexivity. Qed.

Example demo_years :
  map demo_strftime (map demo_time_mean (windows 12 (seq 0 24))) =
  ["20050616"; "20060616"].
Proof. reflexivity. Qed.

Example demo_thetao_error :
  global_mean (demo_env "thetao")
    "gs://cmip6/demo" = inl (KeyError "tos").
Proof. reflexivity. Qed.

(** ** The latitude coordinate resolver *)

Lemma raises_inl {A} (e : exn) : raises (@inl exn A e).
Proof. exists e. reflexivity. Qed.

#[local] Hint Resolve raises_inl : core.

(** C6: the resolver answers "lat" when a coordinate of that name exists,
    otherwise "latitude" when that one exists, and raises exactly when the
    dataset has neither coordinate. *)
Theorem get_lat_name_priority :
  forall (T : Type) (ds : Dataset T),
    (is_Some (coords ds !! "lat") -> get_lat_name ds = inr "lat") /\
    (coords ds !! "lat" = None -> is_Some (coords ds !! "latitude") ->
     get_lat_name ds = inr "latitude") /\
    (raises (get_lat_name ds) <->
     coords ds !! "lat" = None /\ coords ds !! "latitude" = None) /\
    (coords ds !! "lat" = None -> coords ds !! "latitude" = None ->
     get_lat_name ds = inl (RuntimeError "Couldn't find a latitude coordinate")).
Proof.
  intros T ds. unfold get_lat_name, first_coord, raises, ret, raise.
  destruct (coords ds !! "lat") as [lat|] eqn:Elat;
    destruct (coords ds !! "latitude") as [latitude|] eqn:Elatitude;
    repeat case_decide;
    repeat match goal with
           | H : ~ is_Some (Some _) |- _ => destruct H; eexists; reflexivity
           | H : is_Some None |- _ => destruct H; discriminate
           end.
  all: repeat split; intros;
    repeat match goal with
           | H : is_Some None |- _ => destruct H; discriminate
           | H : exists _, inr _ = inl _ |- _ => destruct H; discriminate
           | H : _ /\ _ |- _ => destruct H
           end;
    try discriminate; try reflexivity.
  eexists; reflexivity.
Qed.

(** ** The string slice helper *)

Lemma get_lookup (s : string) (n : nat) :
  String.get n s = list_ascii_of_string s !! n.
Proof.
  revert n. induction s as [| c s IH]; intros [| n]; simpl; auto.
Qed.

Lemma length_list_ascii (s : string) :
  length (list_ascii_of_string s) = String.length s.
Proof. induction s; simpl; congruence. Qed.

Lemma get_is_Some (s : string) (n : nat) :
  (n < String.length s)%nat -> exists c, String.get n s = Some c.
Proof.
  intros Hn. rewrite get_lookup. apply lookup_lt_is_Some_2.
  rewrite length_list_ascii. exact Hn.
Qed.

Lemma getitem_valid (s : string) (i : Z) :
  valid_index s i -> Py.getitem s i = inr (char_at s i).
Proof.
  unfold valid_index, Py.getitem, char_at. intros Hi.
  set (n := Z.of_nat (String.length s)) in *.
  assert (Hk : ((if (i <? 0)%Z then (i + n)%Z else i) = i mod n)%Z).
  { destruct (Z.ltb_spec i 0).
    - apply (Z.mod_unique_pos _ _ (-1)); lia.
    - symmetry. apply Z.mod_small. lia. }
  rewrite Hk.
  assert (Hr : (0 <= i mod n < n)%Z) by (apply Z.mod_pos_bound; lia).
  replace ((i mod n <? 0)%Z || (n <=? i mod n)%Z) with false.
  2: { symmetry. apply orb_false_intro; [apply Z.ltb_ge | apply Z.leb_gt]; lia. }
  destruct (get_is_Some s (Z.to_nat (i mod n))) as [c Hc]; [unfold n in *; lia |].
  rewrite Hc. reflexivity.
Qed.

Lemma getitem_invalid (s : string) (i : Z) :
  ~ valid_index s i ->
  Py.getitem s i = inl (IndexError "string index out of range").
Proof.
  unfold valid_index, Py.getitem. intros Hi.
  set (n := Z.of_nat (String.length s)) in *.
  destruct (Z.ltb_spec i 0).
  - replace ((i + n <? 0)%Z || (n <=? i + n)%Z) with true; [reflexivity |].
    symmetry. apply orb_true_intro. left. apply Z.ltb_lt. lia.
  - replace ((i <? 0)%Z || (n <=? i)%Z) with true; [reflexivity |].
    symmetry. apply orb_true_intro. right. apply Z.leb_le. lia.
Qed.

Lemma selstr_loop_valid (s : string) (idx : list Z) :
  Forall (valid_index s) idx ->
  forall out, selstr_loop s idx out = inr (out ++ map (char_at s) idx).
Proof.
  induction 1 as [| i idx Hi _ IH]; intros out; simpl.
  - rewrite app_nil_r. reflexivity.
  - rewrite (getitem_valid _ _ Hi). simpl. rewrite IH, <- app_assoc. reflexivity.
Qed.

Lemma selstr_loop_invalid (s : string) (idx : list Z) :
  Exists (fun i => ~ valid_index s i) idx ->
  forall out,
    selstr_loop s idx out = inl (IndexError "string index out of range").
Proof.
  induction idx as [| i idx IH]; intros Hex out.
  - inversion Hex.
  - simpl. destruct (decide (valid_index s i)) as [Hi | Hi].
    + rewrite (getitem_valid _ _ Hi). simpl. apply IH.
      inversion Hex; subst; [contradiction | assumption].
    + rewrite (getitem_invalid _ _ Hi). reflexivity.
Qed.

Lemma elem_of_range (start stop i : Z) :
  i ∈ Py.range start stop <-> (start <= i < stop)%Z.
Proof.
  unfold Py.range. rewrite list_elem_of_fmap. split.
  - intros (k & -> & Hk). apply elem_of_seq in Hk. lia.
  - intros Hi. exists (Z.to_nat (i - start)). split; [lia |].
    apply elem_of_seq. lia.
Qed.

(** On indices inside the string the characters selected are those of the
    library's [substring]. *)
Lemma map_char_at_substring (s : string) (start len : nat) :
  (start + len <= String.length s)%nat ->
  string_of_list_ascii
    (map (char_at s) (map (fun k => (Z.of_nat start + Z.of_nat k)%Z) (seq 0 len)))
  = substring start len s.
Proof.
  intros Hlen. apply get_correct. intros n.
  destruct (Nat.lt_ge_cases n len) as [Hn | Hn].
  - rewrite substring_correct1 by exact Hn.
    rewrite get_lookup, list_ascii_of_string_of_list_ascii.
    rewrite !list_lookup_fmap, lookup_seq_lt by exact Hn. simpl.
    unfold char_at.
    replace ((Z.of_nat start + Z.of_nat n) mod Z.of_nat (String.length s))%Z
      with (Z.of_nat (start + n)).
    2: { symmetry. rewrite <- Nat2Z.inj_add. apply Z.mod_small. lia. }
    rewrite Nat2Z.id.
    destruct (get_is_Some s (start + n)) as [d Hd]; [lia |].
    rewrite Hd, Nat.add_comm. symmetry. exact Hd.
  - rewrite substring_correct2 by exact Hn.
    rewrite get_lookup, list_ascii_of_string_of_list_ascii.
    apply lookup_ge_None. rewrite !length_map, length_seq. exact Hn.
Qed.

Lemma selstr_valid (s : string) (start stop : Z) :
  (forall i, (start <= i < stop)%Z -> valid_index s i) ->
  selstr (Py.Str s) start stop =
  inr (string_of_list_ascii (map (char_at s) (Py.range start stop))).
Proof.
  intros Hall. unfold selstr. rewrite selstr_loop_valid.
  - reflexivity.
  - apply Forall_forall. intros i Hi. apply Hall, elem_of_range, Hi.
Qed.

Lemma selstr_substring (s : string) (start stop : Z) :
  (0 <= start <= stop)%Z ->
  (stop <= Z.of_nat (String.length s))%Z ->
  selstr (Py.Str s) start stop =
  inr (substring (Z.to_nat start) (Z.to_nat (stop - start)) s).
Proof.
  intros Hstart Hstop. rewrite selstr_valid.
  - unfold Py.range. f_equal.
    rewrite <- (map_char_at_substring s (Z.to_nat start)) by lia.
    rewrite Z2Nat.id by lia. reflexivity.
  - unfold valid_index. lia.
Qed.

(** C5, counterexample: on a string and a range that leaves the string
    the helper returns nothing; it raises an index error. *)
Lemma selstr_out_of_range_raises :
  selstr (Py.Str "abc") 0 5 = inl (IndexError "string index out of range") /\
  ~ (exists out, selstr (Py.Str "abc") 0 5 = inr out).
Proof. split; [reflexivity | intros [out Hout]; discriminate Hout]. Qed.

(** C5, amended: on a string whose indices in [start, stop) are all
    valid, [selstr] returns the concatenation of the characters at those
    indices (for indices inside [0, len] the substring from [start] of
    length [stop - start]), so that [selstr "20050115" 0 4] is "2005"; on
    a string with an invalid index in the range it raises an index error;
    it raises a type error exactly when its first argument is not a
    string. *)
Theorem selstr_spec :
  forall (a : Py.obj) (start stop : Z),
    (forall s, a = Py.Str s ->
       (forall i, (start <= i < stop)%Z -> valid_index s i) ->
       selstr a start stop =
       inr (string_of_list_ascii (map (char_at s) (Py.range start stop)))) /\
    (forall s, a = Py.Str s ->
       (0 <= start <= stop)%Z -> (stop <= Z.of_nat (String.length s))%Z ->
       selstr a start stop =
       inr (substring (Z.to_nat start) (Z.to_nat (stop - start)) s)) /\
    (forall s i, a = Py.Str s ->
       (start <= i < stop)%Z -> ~ valid_index s i ->
       selstr a start stop = inl (IndexError "string index out of range")) /\
    ((exists msg, selstr a start stop = inl (TypeError msg)) <->
     (forall s, a <> Py.Str s)) /\
    selstr (Py.Str "20050115") 0 4 = inr "2005".
Proof.
  intros a start stop.
  split; [| split; [| split; [| split]]].
  - intros s ->. apply selstr_valid.
  - intros s ->. apply selstr_substring.
  - intros s i -> Hi Hbad. unfold selstr.
    rewrite selstr_loop_invalid; [reflexivity |].
    apply Exists_exists. exists i. split; [| exact Hbad].
    apply elem_of_range, Hi.
  - split.
    + intros [msg Hmsg] s ->. unfold selstr in Hmsg.
      destruct (decide (Forall (valid_index s) (Py.range start stop))) as [Hv | Hv].
      * rewrite selstr_loop_valid in Hmsg by exact Hv. discriminate Hmsg.
      * apply not_Forall_Exists in Hv; [| intros x; apply _].
        rewrite selstr_loop_invalid in Hmsg by exact Hv. discriminate Hmsg.
    + intros Hns. destruct a as [s | | |]; try (eexists; reflexivity).
      destruct (Hns s). reflexivity.
  - reflexivity.
Qed.

(** ** The output file name *)

Lemma append_cons (c : ascii) (s t : string) :
  String c s +:+ t = String c (s +:+ t).
Proof. reflexivity. Qed.

Lemma append_nil_l (t : string) : "" +:+ t = t.
Proof. reflexivity. Qed.

Lemma append_assoc (s t u : string) : (s +:+ t) +:+ u = s +:+ (t +:+ u).
Proof.
  induction s as [| c s IH]; [reflexivity |].
  rewrite !append_cons, IH. reflexivity.
Qed.

Lemma prefix_nil (s : string) : String.prefix "" s = true.
Proof. destruct s; reflexivity. Qed.

Lemma prefix_length (old s : string) :
  String.prefix old s = true -> (String.length old <= String.length s)%nat.
Proof.
  revert s. induction old as [| a old IH]; intros s H; simpl; [lia |].
  destruct s as [| b s]; simpl in H; [discriminate |].
  destruct (ascii_dec a b); [| discriminate].
  specialize (IH s H). simpl. lia.
Qed.

(** A character that does not occur in [old] stops every occurrence of
    [old] that starts before it. *)
Lemma prefix_app_sep (c : ascii) (s2 old s1 : string) :
  Py.mem c old = false ->
  old <> "" ->
  String.prefix old (s1 +:+ String c s2) = String.prefix old s1.
Proof.
  revert old. induction s1 as [| b s1 IH]; intros old Hmem Hne.
  - destruct old as [| a old]; [congruence |].
    rewrite append_nil_l. simpl. simpl in Hmem.
    destruct (ascii_dec a c) as [-> | Hac]; [| reflexivity].
    rewrite Ascii.eqb_refl in Hmem. discriminate.
  - destruct old as [| a old]; [congruence |].
    rewrite append_cons. simpl. simpl in Hmem.
    destruct (ascii_dec a b); [| reflexivity].
    destruct (Ascii.eqb c a); [discriminate |].
    destruct old as [| a' old']; [rewrite !prefix_nil; reflexivity |].
    apply IH; [exact Hmem | discriminate].
Qed.

Lemma replace_go_sep (old new : string) (c : ascii) (s2 : string) :
  Py.mem c old = false ->
  old <> "" ->
  forall (s1 : string) (k : nat),
    (k <= String.length s1)%nat ->
    Py.replace_go old new k (s1 +:+ String c s2) =
    Py.replace_go old new k s1 +:+ String c (Py.replace_go old new 0 s2).
Proof.
  intros Hmem Hne. induction s1 as [| b s1 IH]; intros k Hk.
  - simpl in Hk. assert (k = 0%nat) as -> by lia.
    rewrite append_nil_l.
    pose proof (prefix_app_sep c s2 old "" Hmem Hne) as Hp.
    rewrite append_nil_l in Hp.
    change (Py.replace_go old new 0 (String c s2)) with
      (if String.prefix old (String c s2)
       then new +:+ Py.replace_go old new (String.length old - 1) s2
       else String c (Py.replace_go old new 0 s2)).
    rewrite Hp. destruct old; [congruence | reflexivity].
  - rewrite append_cons. destruct k as [| k].
    + change (Py.replace_go old new 0 (String b (s1 +:+ String c s2))) with
        (if String.prefix old (String b (s1 +:+ String c s2))
         then new +:+ Py.replace_go old new (String.length old - 1) (s1 +:+ String c s2)
         else String b (Py.replace_go old new 0 (s1 +:+ String c s2))).
      change (Py.replace_go old new 0 (String b s1)) with
        (if String.prefix old (String b s1)
         then new +:+ Py.replace_go old new (String.length old - 1) s1
         else String b (Py.replace_go old new 0 s1)).
      rewrite <- append_cons, (prefix_app_sep c s2 old (String b s1) Hmem Hne).
      destruct (String.prefix old (String b s1)) eqn:Hp.
      * apply prefix_length in Hp. simpl in Hp.
        rewrite IH by lia. rewrite append_assoc. reflexivity.
      * rewrite IH by lia. reflexivity.
    + simpl. apply IH. simpl in Hk. lia.
Qed.

Lemma replace_sep (old new : string) (c : ascii) (s1 s2 : string) :
  Py.mem c old = false ->
  old <> "" ->
  Py.replace (s1 +:+ String c s2) old new =
  Py.replace s1 old new +:+ String c (Py.replace s2 old new).
Proof.
  intros Hmem Hne. unfold Py.replace.
  destruct old as [| a old]; [congruence |].
  apply replace_go_sep; [exact Hmem | exact Hne | lia].
Qed.

Lemma prefix_app_self (old p : string) : String.prefix old (old +:+ p) = true.
Proof.
  induction old as [| a old IH]; [apply prefix_nil |].
  rewrite append_cons. simpl. destruct (ascii_dec a a); [exact IH | congruence].
Qed.

Lemma replace_go_skip (old new s1 p : string) :
  Py.replace_go old new (String.length s1) (s1 +:+ p) = Py.replace_go old new 0 p.
Proof. induction s1 as [| b s1 IH]; [reflexivity | exact IH]. Qed.

(** An occurrence at the head of the string is replaced whole. *)
Lemma replace_occurrence (a : ascii) (old new p : string) :
  Py.replace (String a old +:+ p) (String a old) new =
  new +:+ Py.replace p (String a old) new.
Proof.
  unfold Py.replace. rewrite append_cons.
  change (Py.replace_go (String a old) new 0 (String a (old +:+ p)))
    with (if String.prefix (String a old) (String a (old +:+ p))
          then new +:+ Py.replace_go (String a old) new
                         (String.length (String a old) - 1) (old +:+ p)
          else String a (Py.replace_go (String a old) new 0 (old +:+ p))).
  rewrite <- append_cons, prefix_app_self.
  replace (String.length (String a old) - 1)%nat with (String.length old)
    by (simpl; lia).
  rewrite replace_go_skip. reflexivity.
Qed.

(** The characters of the path are replaced one by one, so the
    replacement of slashes distributes over concatenation. *)
Lemma replace_char_app (c d : ascii) (s1 s2 : string) :
  Py.replace (s1 +:+ s2) (String c "") (String d "") =
  Py.replace s1 (String c "") (String d "") +:+
  Py.replace s2 (String c "") (String d "").
Proof.
  unfold Py.replace. induction s1 as [| b s1 IH]; [reflexivity |].
  rewrite append_cons.
  change (Py.replace_go (String c "") (String d "") 0 (String b (s1 +:+ s2)))
    with (if String.prefix (String c "") (String b (s1 +:+ s2))
          then String d "" +:+ Py.replace_go (String c "") (String d "") 0 (s1 +:+ s2)
          else String b (Py.replace_go (String c "") (String d "") 0 (s1 +:+ s2))).
  change (Py.replace_go (String c "") (String d "") 0 (String b s1))
    with (if String.prefix (String c "") (String b s1)
          then String d "" +:+ Py.replace_go (String c "") (String d "") 0 s1
          else String b (Py.replace_go (String c "") (String d "") 0 s1)).
  rewrite IH. simpl String.prefix.
  destruct (ascii_dec c b); destruct s1, s2; reflexivity.
Qed.

(** C3, counterexample: the literal removed is "gs:__cmip6_", so the
    documented example does not keep its "cmip6_" part. *)
Lemma ofile_example_differs :
  ofile "gs://cmip6/historical/foo.zarr" = "./global/historical_foo.zarr.csv" /\
  ofile "gs://cmip6/historical/foo.zarr" <> "./global/cmip6_historical_foo.zarr.csv".
Proof. split; [reflexivity | discriminate]. Qed.

(** C3, amended: for every input path the output name is the output
    directory, then the path with its slashes replaced by underscores and
    every occurrence of "gs:__cmip6_" then removed, then ".csv"; on a path
    "gs://cmip6/rest" the leading literal goes away whole; the input
    "gs://cmip6/historical/foo.zarr" yields
    "./global/historical_foo.zarr.csv". *)
Theorem ofile_spec :
  forall path : string,
    ofile path =
      "./global/" +:+ Py.replace (Py.replace path "/" "_") "gs:__cmip6_" "" +:+ ".csv" /\
    ofile ("gs://cmip6/" +:+ path) =
      "./global/" +:+ Py.replace (Py.replace path "/" "_") "gs:__cmip6_" "" +:+ ".csv" /\
    ofile "gs://cmip6/historical/foo.zarr" = "./global/historical_foo.zarr.csv".
Proof.
  assert (Hgen : forall path, ofile path =
    "./global/" +:+ Py.replace (Py.replace path "/" "_") "gs:__cmip6_" "" +:+ ".csv").
  { intros path. unfold ofile, outdir.
    change ("./global/" +:+ Py.replace path "/" "_" +:+ ".csv")
      with ("./global" +:+ String "/" (Py.replace path "/" "_" +:+ String "." "csv")).
    rewrite replace_sep by (reflexivity || discriminate).
    rewrite replace_sep by (reflexivity || discriminate).
    reflexivity. }
  intros path. split; [apply Hgen | split; [| reflexivity]].
  rewrite Hgen. do 2 f_equal.
  rewrite (replace_char_app "/" "_" "gs://cmip6/" path).
  change (Py.replace "gs://cmip6/" "/" "_") with "gs:__cmip6_".
  apply (replace_occurrence "g" "s:__cmip6_").
Qed.

(** ** The latitude weights *)

Open Scope R_scope.

Lemma sum_map_div (ws : list R) (m : R) :
  sum (map (fun w => w / m) ws) = sum ws / m.
Proof.
  induction ws as [| w ws IH]; simpl.
  - unfold Rdiv. ring.
  - rewrite IH. unfold Rdiv. ring.
Qed.

Lemma INR_length_nonzero {A} (l : list A) : l <> [] -> INR (length l) <> 0.
Proof.
  intros Hl. apply not_0_INR. destruct l; [congruence | discriminate].
Qed.

(** Between the poles every cosine is positive. *)
Lemma cos_deg2rad_pos (x : R) : -90 < x < 90 -> 0 < cos (deg2rad x).
Proof.
  intros [Hlo Hhi]. pose proof PI_RGT_0 as Hpi.
  apply cos_gt_0; unfold deg2rad; nra.
Qed.

Lemma sum_pos (xs : list R) : xs <> [] -> Forall (fun x => 0 < x) xs -> 0 < sum xs.
Proof.
  intros Hne Hall. induction Hall as [| x xs Hx Hall IH]; [congruence |].
  destruct xs as [| y ys].
  - unfold sum. simpl. lra.
  - assert (0 < sum (y :: ys)) by (apply IH; discriminate).
    change (sum (x :: y :: ys)) with (x + sum (y :: ys)). lra.
Qed.

Lemma sum_cons (x : R) (xs : list R) : sum (x :: xs) = x + sum xs.
Proof. reflexivity. Qed.

Lemma sum_app (xs ys : list R) : sum (xs ++ ys) = sum xs + sum ys.
Proof.
  unfold sum. induction xs as [| x xs IH]; simpl; [ring |].
  rewrite IH. ring.
Qed.

Lemma sum_replicate (n : nat) (c : R) : sum (replicate n c) = INR n * c.
Proof.
  induction n as [| n IH]; [simpl; unfold sum; simpl; ring |].
  change (sum (replicate (S n) c)) with (c + sum (replicate n c)).
  rewrite IH, S_INR. ring.
Qed.

(** In exact arithmetic the operations on arrays are those on real
    numbers. *)
Lemma sum_in_exact (xs : list R) : sum_in exact xs = sum xs.
Proof.
  unfold sum_in, sum. cbn [exact rounded a_add a_zero].
  apply fold_symmetric; intros; ring.
Qed.

Lemma mean_in_exact (xs : list R) : mean_in exact xs = mean xs.
Proof. unfold mean_in, mean. rewrite sum_in_exact. reflexivity. Qed.

Lemma lat_weights_in_exact (lat : list R) : lat_weights_in exact lat = lat_weights lat.
Proof.
  unfold lat_weights_in, lat_weights. rewrite mean_in_exact. reflexivity.
Qed.

(** *** Rounding errors *)

Section Rounding.

Variable rnd : R -> R.
Variable cosd : R -> R.
Variable u : R.
Hypothesis u_range : 0 <= u < 1.
Hypothesis rnd_model : standard_model rnd u.

Lemma pow_lo_pos (p : nat) : 0 < (1 - u) ^ p.
Proof. apply pow_lt. lra. Qed.

Lemma pow_hi_pos (p : nat) : 0 < (1 + u) ^ p.
Proof. apply pow_lt. lra. Qed.

Lemma pow_lo_le_1 (p : nat) : (1 - u) ^ p <= 1.
Proof.
  induction p as [| p IH]; simpl; [lra |].
  pose proof (pow_lo_pos p). nra.
Qed.

Lemma pow_hi_ge_1 (p : nat) : 1 <= (1 + u) ^ p.
Proof. apply pow_R1_Rle. lra. Qed.

Lemma factor_lo_pos (p n : nat) : 0 < factor_lo u p n.
Proof. apply Rdiv_lt_0_compat; [apply pow_lo_pos | apply pow_hi_pos]. Qed.

Lemma factor_hi_pos (p n : nat) : 0 < factor_hi u p n.
Proof. apply Rdiv_lt_0_compat; [apply pow_hi_pos | apply pow_lo_pos]. Qed.

Lemma factor_lo_mul (p n p' n' : nat) :
  factor_lo u p n * factor_lo u p' n' = factor_lo u (p + p') (n + n').
Proof.
  unfold factor_lo. rewrite !pow_add. field.
  split; apply Rgt_not_eq; first [apply pow_lo_pos | apply pow_hi_pos].
Qed.

Lemma factor_hi_mul (p n p' n' : nat) :
  factor_hi u p n * factor_hi u p' n' = factor_hi u (p + p') (n + n').
Proof.
  unfold factor_hi. rewrite !pow_add. field.
  split; apply Rgt_not_eq; first [apply pow_lo_pos | apply pow_hi_pos].
Qed.

Lemma factor_hi_inv (p n : nat) : / factor_hi u p n = factor_lo u n p.
Proof.
  unfold factor_hi, factor_lo. field.
  split; apply Rgt_not_eq; first [apply pow_lo_pos | apply pow_hi_pos].
Qed.

Lemma factor_lo_inv (p n : nat) : / factor_lo u p n = factor_hi u n p.
Proof.
  unfold factor_hi, factor_lo. field.
  split; apply Rgt_not_eq; first [apply pow_lo_pos | apply pow_hi_pos].
Qed.

Lemma factor_lo_le_1 (p n : nat) : factor_lo u p n <= 1.
Proof.
  unfold factor_lo. pose proof (pow_lo_le_1 p). pose proof (pow_hi_ge_1 n).
  apply (Rmult_le_reg_r ((1 + u) ^ n)); [apply pow_hi_pos |].
  unfold Rdiv. rewrite Rmult_assoc, Rinv_l by (apply Rgt_not_eq, pow_hi_pos). lra.
Qed.

Lemma factor_hi_ge_1 (p n : nat) : 1 <= factor_hi u p n.
Proof.
  unfold factor_hi. pose proof (pow_lo_le_1 n). pose proof (pow_hi_ge_1 p).
  apply (Rmult_le_reg_r ((1 - u) ^ n)); [apply pow_lo_pos |].
  unfold Rdiv. rewrite Rmult_assoc, Rinv_l by (apply Rgt_not_eq, pow_lo_pos). lra.
Qed.

Lemma factor_lo_mono (p n p' n' : nat) :
  (p <= p')%nat -> (n <= n')%nat -> factor_lo u p' n' <= factor_lo u p n.
Proof.
  intros Hp Hn.
  replace p' with (p + (p' - p))%nat by lia.
  replace n' with (n + (n' - n))%nat by lia.
  rewrite <- factor_lo_mul.
  pose proof (factor_lo_pos p n). pose proof (factor_lo_le_1 (p' - p) (n' - n)).
  pose proof (factor_lo_pos (p' - p) (n' - n)). nra.
Qed.

Lemma factor_hi_mono (p n p' n' : nat) :
  (p <= p')%nat -> (n <= n')%nat -> factor_hi u p n <= factor_hi u p' n'.
Proof.
  intros Hp Hn.
  replace p' with (p + (p' - p))%nat by lia.
  replace n' with (n + (n' - n))%nat by lia.
  rewrite <- factor_hi_mul.
  pose proof (factor_hi_pos p n). pose proof (factor_hi_ge_1 (p' - p) (n' - n)).
  nra.
Qed.

Lemma factor_lo_S (p n : nat) : factor_lo u (S p) n = factor_lo u p n * (1 - u).
Proof.
  unfold factor_lo. simpl. field. apply Rgt_not_eq, pow_hi_pos.
Qed.

Lemma factor_hi_S (p n : nat) : factor_hi u (S p) n = factor_hi u p n * (1 + u).
Proof.
  unfold factor_hi. simpl. field. apply Rgt_not_eq, pow_lo_pos.
Qed.

Lemma within_refl (a : R) : within u 0 0 a a.
Proof.
  exists 1. unfold factor_lo, factor_hi. simpl. split; [lra | ring].
Qed.

Lemma within_weaken (p n p' n' : nat) (a b : R) :
  (p <= p')%nat -> (n <= n')%nat -> within u p n a b -> within u p' n' a b.
Proof.
  intros Hp Hn (q & [Hlo Hhi] & ->). exists q. split; [| reflexivity].
  pose proof (factor_lo_mono p n p' n' Hp Hn).
  pose proof (factor_hi_mono p n p' n' Hp Hn). lra.
Qed.

Lemma within_mul (p n p' n' : nat) (a b a' b' : R) :
  within u p n a b -> within u p' n' a' b' ->
  within u (p + p') (n + n') (a * a') (b * b').
Proof.
  intros (q & [Hlo Hhi] & ->) (q' & [Hlo' Hhi'] & ->).
  exists (q * q'). split; [| ring].
  rewrite <- factor_lo_mul, <- factor_hi_mul.
  pose proof (factor_lo_pos p n). pose proof (factor_lo_pos p' n').
  split; apply Rmult_le_compat; lra.
Qed.

Lemma within_inv (p n : nat) (a b : R) :
  within u p n a b -> within u n p (/ a) (/ b).
Proof.
  intros (q & [Hlo Hhi] & ->).
  pose proof (factor_lo_pos p n) as Hpos.
  exists (/ q). split; [| rewrite Rinv_mult; reflexivity].
  rewrite <- (factor_hi_inv p n), <- (factor_lo_inv p n).
  split; apply Rinv_le_contravar; lra.
Qed.

Lemma within_div (p n p' n' : nat) (a b a' b' : R) :
  within u p n a b -> within u p' n' a' b' ->
  within u (p + n') (n + p') (a / a') (b / b').
Proof.
  intros Ha Ha'. unfold Rdiv. apply within_mul; [exact Ha |].
  apply within_inv, Ha'.
Qed.

Lemma within_rnd (p n : nat) (a b : R) :
  within u p n a b -> within u (S p) n (rnd a) b.
Proof.
  intros (q & [Hlo Hhi] & ->).
  destruct (rnd_model (q * b)) as (d & Hd & ->).
  assert (Hd' : - u <= d <= u) by (revert Hd; unfold Rabs; destruct (Rcase_abs d); lra).
  clear Hd.
  exists (q * (1 + d)). split; [| ring].
  rewrite factor_lo_S, factor_hi_S.
  pose proof (factor_lo_pos p n).
  split; apply Rmult_le_compat; lra.
Qed.

(** Terms of one sign: [s] is 1 or -1. *)
Lemma within_add (s : R) (p n : nat) (a b a' b' : R) :
  s * s = 1 -> 0 <= s * b -> 0 <= s * b' ->
  within u p n a b -> within u p n a' b' -> within u p n (a + a') (b + b').
Proof.
  intros Hs Hb Hb' (q & [Hlo Hhi] & ->) (q' & [Hlo' Hhi'] & ->).
  pose proof (factor_lo_le_1 p n). pose proof (factor_hi_ge_1 p n).
  destruct (Req_dec (b + b') 0) as [Hz | Hnz].
  - assert (Hsum : s * b + s * b' = 0) by (rewrite <- Rmult_plus_distr_l, Hz; ring).
    assert (Hb0 : b = 0).
    { replace b with (s * s * b) by (rewrite Hs; ring). rewrite Rmult_assoc.
      replace (s * b) with 0 by lra. ring. }
    assert (Hb0' : b' = 0) by lra. subst b b'.
    exists 1. split; [lra | ring].
  - exists ((q * b + q' * b') / (b + b')).
    split; [| field; exact Hnz].
    assert (Hpos : 0 < s * (b + b')).
    { destruct (Rle_lt_or_eq_dec 0 (s * (b + b'))) as [Hlt | Heq]; [nra | exact Hlt |].
      exfalso. apply Hnz.
      replace (b + b') with (s * (s * (b + b'))) by (rewrite <- Rmult_assoc, Hs; ring).
      rewrite <- Heq. ring. }
    replace ((q * b + q' * b') / (b + b'))
      with ((q * (s * b) + q' * (s * b')) / (s * (b + b'))).
    2: { field. split; [exact Hnz |]. intros ->. lra. }
    split.
    + apply (Rmult_le_reg_r (s * (b + b'))); [exact Hpos |].
      unfold Rdiv. rewrite Rmult_assoc, Rinv_l by lra. nra.
    + apply (Rmult_le_reg_r (s * (b + b'))); [exact Hpos |].
      unfold Rdiv. rewrite Rmult_assoc, Rinv_l by lra. nra.
Qed.

Lemma fold_within (s : R) (p n : nat) (xs ys : list R) :
  s * s = 1 ->
  Forall2 (within u p n) xs ys ->
  Forall (fun y => 0 <= s * y) ys ->
  forall (j : nat) (acc accb : R),
    0 <= s * accb ->
    within u (p + j) n acc accb ->
    within u (p + j + length xs) n
      (fold_left (a_add (rounded rnd cosd)) xs acc) (accb + sum ys).
Proof.
  intros Hs Hxy. induction Hxy as [| x y xs ys Hx _ IH]; intros Hsign j acc accb Hacc Hw.
  - simpl. rewrite Nat.add_0_r. unfold sum. simpl. rewrite Rplus_0_r. exact Hw.
  - apply Forall_cons in Hsign as [Hy Hys].
    cbn [fold_left length]. rewrite sum_cons.
    replace (p + j + S (length xs))%nat with (p + S j + length xs)%nat by lia.
    rewrite <- Rplus_assoc. apply IH; [exact Hys | lra |].
    cbn [rounded a_add]. replace (p + S j)%nat with (S (p + j)) by lia.
    apply within_rnd. apply (within_add s); try assumption.
    apply (within_weaken p n); [lia | lia | exact Hx].
Qed.

Lemma sum_in_within (s : R) (p n : nat) (xs ys : list R) :
  s * s = 1 ->
  Forall2 (within u p n) xs ys ->
  Forall (fun y => 0 <= s * y) ys ->
  within u (p + length xs) n (sum_in (rounded rnd cosd) xs) (sum ys).
Proof.
  intros Hs Hxy Hsign. unfold sum_in.
  pose proof (fold_within s p n xs ys Hs Hxy Hsign 0 0 0) as H.
  rewrite Nat.add_0_r, Rplus_0_l in H. apply H; [lra |].
  exists 1. pose proof (factor_lo_le_1 p n).
  pose proof (factor_hi_ge_1 p n).
  cbn [rounded a_zero]. split; [lra | ring].
Qed.

Lemma within_scale (p n : nat) (a b k : R) :
  within u p n a b -> within u p n (a / k) (b / k).
Proof.
  intros (q & Hq & ->). exists q. split; [exact Hq |]. unfold Rdiv. ring.
Qed.

Lemma mean_in_within (s : R) (p n : nat) (xs ys : list R) :
  s * s = 1 ->
  Forall2 (within u p n) xs ys ->
  Forall (fun y => 0 <= s * y) ys ->
  within u (p + length xs + 1) n (mean_in (rounded rnd cosd) xs)
    (sum ys / INR (length ys)).
Proof.
  intros Hs Hxy Hsign. unfold mean_in.
  change (a_div (rounded rnd cosd)) with (fun a b => rnd (a / b)).
  change (a_of_nat (rounded rnd cosd)) with INR. cbv beta.
  rewrite Nat.add_1_r. apply within_rnd.
  rewrite (Forall2_length _ _ _ Hxy). apply within_scale.
  rewrite <- (Forall2_length _ _ _ Hxy).
  apply (sum_in_within s); assumption.
Qed.

Lemma Forall_nonneg (s : R) (xs : list R) :
  s = 1 -> Forall (fun x => 0 < x) xs -> Forall (fun x => 0 <= s * x) xs.
Proof.
  intros -> Hall. eapply Forall_impl; [exact Hall |]. intros x Hx. simpl. lra.
Qed.

(** The mean of the cosines, computed and exact. *)
Lemma mean_cosines_within (lat : list R) :
  lat <> [] ->
  Forall (fun x => 0 < cosd x) lat ->
  within u (length lat + 1) 0
    (mean_in (rounded rnd cosd) (map cosd lat))
    (sum (map cosd lat) / INR (length lat)) /\
  0 < sum (map cosd lat) / INR (length lat).
Proof.
  intros Hne Hpos.
  assert (Hcs : Forall (fun x => 0 < x) (map cosd lat)) by (apply Forall_fmap, Hpos).
  split.
  - pose proof (mean_in_within 1 0 0 (map cosd lat) (map cosd lat)) as H.
    rewrite !length_map in H. apply H.
    + ring.
    + apply Forall_Forall2_diag, Forall_forall. intros x _. apply within_refl.
    + apply Forall_nonneg; [reflexivity | exact Hcs].
  - apply Rdiv_lt_0_compat.
    + apply sum_pos; [destruct lat; [congruence | discriminate] | exact Hcs].
    + apply lt_0_INR. destruct lat; [congruence | simpl; lia].
Qed.

(** Every computed weight against the exact one. *)
Lemma lat_weights_in_within (lat : list R) :
  lat <> [] ->
  Forall (fun x => 0 < cosd x) lat ->
  Forall2 (within u 1 (length lat + 1))
    (lat_weights_in (rounded rnd cosd) lat)
    (map (fun c => c / (sum (map cosd lat) / INR (length lat))) (map cosd lat)).
Proof.
  intros Hne Hpos.
  destruct (mean_cosines_within lat Hne Hpos) as [Hm _].
  unfold lat_weights_in. apply Forall2_fmap, Forall_Forall2_diag, Forall_forall.
  intros c _.
  change (a_div (rounded rnd cosd)) with (fun a b => rnd (a / b)). cbv beta.
  apply within_rnd.
  exact (within_div 0 0 (length lat + 1) 0 _ _ _ _ (within_refl c) Hm).
Qed.

Lemma exact_weights_sum (lat : list R) :
  lat <> [] ->
  Forall (fun x => 0 < cosd x) lat ->
  sum (map (fun c => c / (sum (map cosd lat) / INR (length lat))) (map cosd lat)) =
  INR (length lat) /\
  Forall (fun w => 0 < w)
    (map (fun c => c / (sum (map cosd lat) / INR (length lat))) (map cosd lat)).
Proof.
  intros Hne Hpos.
  destruct (mean_cosines_within lat Hne Hpos) as [_ Hmu].
  assert (Hn : INR (length lat) <> 0) by (apply INR_length_nonzero, Hne).
  split.
  - rewrite sum_map_div. field. split; [exact Hn |].
    intros Hz. rewrite Hz in Hmu. unfold Rdiv in Hmu. rewrite Rmult_0_l in Hmu. lra.
  - apply Forall_fmap, Forall_fmap. eapply Forall_impl; [exact Hpos |].
    intros x Hx. simpl. apply Rdiv_lt_0_compat; assumption.
Qed.

Lemma lat_weights_in_length (lat : list R) :
  length (lat_weights_in (rounded rnd cosd) lat) = length lat.
Proof. unfold lat_weights_in. rewrite !length_map. reflexivity. Qed.

Lemma lat_weights_in_mean (lat : list R) :
  lat <> [] ->
  Forall (fun x => 0 < cosd x) lat ->
  within u (length lat + 2) (length lat + 1)
    (mean_in (rounded rnd cosd) (lat_weights_in (rounded rnd cosd) lat)) 1.
Proof.
  intros Hne Hpos.
  destruct (exact_weights_sum lat Hne Hpos) as [Hsum Hw].
  pose proof (mean_in_within 1 1 (length lat + 1) _ _ (Rmult_1_r 1)
                (lat_weights_in_within lat Hne Hpos)
                (Forall_nonneg 1 _ eq_refl Hw)) as H.
  rewrite Hsum, !length_map, lat_weights_in_length in H.
  replace (INR (length lat) / INR (length lat)) with 1 in H
    by (field; apply INR_length_nonzero, Hne).
  replace (length lat + 2)%nat with (1 + length lat + 1)%nat by lia. exact H.
Qed.

Lemma within_one_bounds (p n : nat) (a : R) :
  within u p n a 1 -> factor_lo u p n <= a <= factor_hi u p n.
Proof. intros (q & Hq & ->). rewrite Rmult_1_r. exact Hq. Qed.

(** *** A constant field *)

Lemma times_weight_constant (ws : list R) (nlon : nat) (c : R) :
  concat (times_weight (rounded rnd cosd) ws
            (replicate (length ws) (replicate nlon c))) =
  concat (map (fun w => replicate nlon (rnd (c * w))) ws).
Proof.
  unfold times_weight. induction ws as [| w ws IH]; [reflexivity |].
  cbn [length replicate zip_with concat map]. rewrite IH. f_equal.
  apply (fmap_replicate (fun x => rnd (x * w))).
Qed.

Lemma sum_constant_cells (ws : list R) (nlon : nat) (c : R) :
  sum (concat (map (fun w => replicate nlon (c * w)) ws)) = INR nlon * c * sum ws.
Proof.
  induction ws as [| w ws IH]; [simpl; unfold sum; simpl; ring |].
  simpl concat. rewrite sum_app, sum_replicate, IH, sum_cons. ring.
Qed.

Lemma length_constant_cells {A} (f : R -> A) (ws : list R) (nlon : nat) :
  length (concat (map (fun w => replicate nlon (f w)) ws)) = (length ws * nlon)%nat.
Proof.
  induction ws as [| w ws IH]; [reflexivity |].
  simpl. rewrite length_app, length_replicate, IH. reflexivity.
Qed.

(** The sign of a number, as a factor. *)
Lemma sign_factor (c : R) : exists s, s * s = 1 /\ 0 <= s * c.
Proof.
  destruct (Rle_dec 0 c) as [H | H].
  - exists 1. split; lra.
  - exists (-1). split; lra.
Qed.

(** The mean over the cells of a constant grid: the constant, times the
    exact mean of the weights, up to the roundings. *)
Lemma constant_grid_within (p n : nat) (ws ws' : list R) (nlon : nat) (c : R) :
  Forall2 (within u p n) ws ws' ->
  Forall (fun w => 0 < w) ws' ->
  within u (p + length ws * nlon + 2) n
    (mean_in (rounded rnd cosd)
       (concat (times_weight (rounded rnd cosd) ws
                  (replicate (length ws) (replicate nlon c)))))
    (INR nlon * c * sum ws' / INR (length ws * nlon)).
Proof.
  intros Hws Hpos.
  destruct (sign_factor c) as (s & Hs & Hsc).
  rewrite times_weight_constant.
  assert (Hcells : Forall2 (within u (S p) n)
            (concat (map (fun w => replicate nlon (rnd (c * w))) ws))
            (concat (map (fun w => replicate nlon (c * w)) ws'))).
  { clear Hpos. induction Hws as [| w w' ws ws' Hw _ IH]; [constructor |].
    cbn [map concat]. apply Forall2_app; [| exact IH].
    apply Forall2_replicate. apply within_rnd.
    exact (within_mul 0 0 p n _ _ _ _ (within_refl c) Hw). }
  pose proof (mean_in_within s (S p) n _ _ Hs Hcells) as H.
  rewrite !length_constant_cells, sum_constant_cells in H.
  rewrite <- (Forall2_length _ _ _ Hws) in H.
  replace (p + length ws * nlon + 2)%nat with (S p + length ws * nlon + 1)%nat by lia.
  apply H. apply Forall_concat, Forall_fmap.
  eapply Forall_impl; [exact Hpos |]. intros w Hw. simpl.
  apply Forall_replicate.
  replace (s * (c * w)) with ((s * c) * w) by ring. nra.
Qed.

(** The mean of twelve equal months. *)
Lemma constant_year_within (p n : nat) (v c : R) :
  within u p n v c ->
  within u (p + 13) n (mean_in (rounded rnd cosd) (replicate 12 v)) c.
Proof.
  intros Hv. destruct (sign_factor c) as (s & Hs & Hsc).
  pose proof (mean_in_within s p n (replicate 12 v) (replicate 12 c) Hs) as H.
  rewrite !length_replicate, sum_replicate in H.
  replace (INR 12 * c / INR 12) with c in H by (simpl; field).
  replace (p + 13)%nat with (p + 12 + 1)%nat by lia. apply H.
  - apply Forall2_replicate, Hv.
  - apply Forall_replicate, Hsc.
Qed.

(** The yearly value of a constant field. *)
Lemma constant_field_within (lat : list R) (nlon : nat) (c : R) :
  lat <> [] ->
  Forall (fun x => 0 < cosd x) lat ->
  (0 < nlon)%nat ->
  within u (length lat * nlon + 16) (length lat + 1)
    (mean_in (rounded rnd cosd)
       (replicate 12
          (mean_in (rounded rnd cosd)
             (concat (times_weight (rounded rnd cosd)
                        (lat_weights_in (rounded rnd cosd) lat)
                        (replicate (length lat) (replicate nlon c)))))))
    c.
Proof.
  intros Hne Hpos Hlon.
  destruct (exact_weights_sum lat Hne Hpos) as [Hsum Hw].
  pose proof (constant_grid_within 1 (length lat + 1) _ _ nlon c
                (lat_weights_in_within lat Hne Hpos) Hw) as H.
  rewrite Hsum, lat_weights_in_length in H.
  replace (INR nlon * c * INR (length lat) / INR (length lat * nlon)) with c in H.
  2: { rewrite mult_INR. field. split; [apply not_0_INR; lia |].
       apply INR_length_nonzero, Hne. }
  apply constant_year_within in H.
  replace (length lat * nlon + 16)%nat with (1 + length lat * nlon + 2 + 13)%nat by lia.
  exact H.
Qed.

(** Without rounding the factors are 1. *)
Lemma within_exact (p n : nat) (a b : R) : u = 0 -> within u p n a b -> a = b.
Proof.
  intros Hu (q & [Hlo Hhi] & ->). unfold factor_lo, factor_hi in *.
  rewrite Hu, Rminus_0_r, Rplus_0_r, !pow1 in Hlo, Hhi.
  replace q with 1 by lra. ring.
Qed.

End Rounding.

Lemma standard_model_exact (u : R) : 0 <= u -> standard_model (fun x => x) u.
Proof.
  intros Hu x. exists 0. split; [rewrite Rabs_R0; exact Hu | ring].
Qed.





Close Scope R_scope.

(** ** Coarsening *)

Lemma windows_length {A} (window : nat) (xs : list A) :
  length (windows window xs) = (length xs / window)%nat.
Proof. unfold windows. rewrite length_map, length_seq. reflexivity. Qed.

Lemma windows_full {A} (window : nat) (xs : list A) :
  Forall (fun w => length w = window) (windows window xs).
Proof.
  unfold windows. apply Forall_fmap, Forall_forall. intros i Hi. simpl.
  apply elem_of_seq in Hi.
  rewrite length_take, length_drop.
  pose proof (Nat.Div0.mul_div_le (length xs) window) as Hle.
  assert ((i + 1) * window <= length xs / window * window)%nat
    by (apply Nat.mul_le_mono_r; lia).
  lia.
Qed.

Lemma concat_windows_take {A} (window : nat) (xs : list A) (n : nat) :
  concat (map (fun i => take window (drop (i * window) xs)) (seq 0 n)) =
  take (n * window) xs.
Proof.
  induction n as [| n IH]; [reflexivity |].
  rewrite seq_S, map_app, concat_app, IH. simpl. rewrite app_nil_r.
  rewrite take_take_drop. f_equal. lia.
Qed.

Lemma concat_windows {A} (window : nat) (xs : list A) :
  (length xs mod window = 0)%nat ->
  concat (windows window xs) = xs.
Proof.
  intros Hmod. unfold windows. rewrite concat_windows_take.
  apply take_ge.
  pose proof (Nat.div_mod_eq (length xs) window) as Hdm. lia.
Qed.

Lemma coarsen_exact {A} (window : nat) (agg : list A -> A) (xs : list A) :
  xs <> [] ->
  (length xs mod window = 0)%nat ->
  coarsen window agg xs = inr (map agg (windows window xs)).
Proof.
  intros Hne H. unfold coarsen. rewrite H.
  destruct xs; [congruence | reflexivity].
Qed.

Lemma coarsen_inexact {A} (window : nat) (agg : list A -> A) (xs : list A) :
  (length xs mod window <> 0)%nat ->
  exists msg, coarsen window agg xs = inl (ValueError msg).
Proof.
  intros H. unfold coarsen.
  destruct (Nat.eqb_spec (length xs mod window) 0) as [E | E]; [contradiction |].
  eexists. reflexivity.
Qed.

Lemma coarsen_empty {A} (window : nat) (agg : list A -> A) :
  exists msg, coarsen window agg [] = inl (ValueError msg).
Proof.
  unfold coarsen. destruct (Nat.eqb _ 0); eexists; reflexivity.
Qed.

Lemma coarsen_inv {A} (window : nat) (agg : list A -> A) (xs ys : list A) :
  coarsen window agg xs = inr ys ->
  xs <> [] /\ (length xs mod window = 0)%nat /\ ys = map agg (windows window xs).
Proof.
  unfold coarsen.
  destruct (Nat.eqb_spec (length xs mod window) 0) as [E | E]; [| discriminate].
  destruct xs; [discriminate |]. intros [= <-]. auto.
Qed.

(** C2, counterexample: 25 monthly values do not yield 2 yearly rows, the
    coarsening raises. *)
Lemma coarsen_25_raises :
  coarsen 12 (mean_in exact) (replicate 25 1%R) =
    inl (ValueError "Could not coarsen a dimension whose size is not a multiple of the window") /\
  ~ (exists ys, coarsen 12 (mean_in exact) (replicate 25 1%R) = inr ys /\
                length ys = 2%nat).
Proof. split; [reflexivity | intros (ys & Hys & _); discriminate Hys]. Qed.

(** C2, amended: whatever the arithmetic, coarsening a monthly series into
    consecutive windows of 12 with per-window averaging yields length/12
    rows when the series is not empty and its length is a multiple of 12
    (every window has 12 values, the windows together are the series, and
    24 values yield 2 rows); when the length is not a multiple of 12, and
    when the series is empty, the coarsening raises and yields no rows. *)
Theorem coarsen_rows :
  forall (F : Type) (ar : Arith F) (xs : list F),
    (xs <> [] /\ (length xs mod 12 = 0)%nat ->
     exists ys, coarsen 12 (mean_in ar) xs = inr ys /\
       length ys = (length xs / 12)%nat /\
       (0 < length ys)%nat /\
       ys = map (mean_in ar) (windows 12 xs) /\
       Forall (fun w => length w = 12%nat) (windows 12 xs) /\
       concat (windows 12 xs) = xs) /\
    (length xs = 24%nat ->
     exists y1 y2, coarsen 12 (mean_in ar) xs = inr [y1; y2]) /\
    ((length xs mod 12 <> 0)%nat ->
     exists msg, coarsen 12 (mean_in ar) xs = inl (ValueError msg)) /\
    (xs = [] ->
     exists msg, coarsen 12 (mean_in ar) xs = inl (ValueError msg)).
Proof.
  intros F ar xs. split; [| split; [| split]].
  - intros [Hne Hmod]. exists (map (mean_in ar) (windows 12 xs)).
    split; [apply coarsen_exact; assumption |].
    split; [rewrite length_map; apply windows_length |].
    split.
    { rewrite length_map, windows_length.
      destruct xs as [| x xs]; [congruence |].
      pose proof (Nat.div_mod_eq (length (x :: xs)) 12) as Hdm.
      simpl length in *. lia. }
    split; [reflexivity |].
    split; [apply windows_full | apply concat_windows, Hmod].
  - intros Hlen. rewrite coarsen_exact.
    + unfold windows. rewrite Hlen. simpl. eauto.
    + intros ->. discriminate Hlen.
    + rewrite Hlen. reflexivity.
  - apply coarsen_inexact.
  - intros ->. apply coarsen_empty.
Qed.

(** ** The table combiner *)

Lemma row_has_find (name : string) (r : row) :
  row_has name r = false -> find (fun kv => String.eqb name (fst kv)) r = None.
Proof.
  unfold row_has. induction r as [| kv r IH]; simpl; [reflexivity |].
  destruct (String.eqb name (fst kv)); simpl; [discriminate | exact IH].
Qed.

Lemma find_app_None {A} (f : A -> bool) (l1 l2 : list A) :
  find f l1 = None -> find f (l1 ++ l2) = find f l2.
Proof.
  induction l1 as [| a l1 IH]; simpl; [reflexivity |].
  destruct (f a); [discriminate | exact IH].
Qed.

Lemma row_get_set (name : string) (v : cell) (r : row) :
  row_get name (row_set name v r) = Some v.
Proof.
  unfold row_set, row_get. destruct (row_has name r) eqn:Hhas.
  - unfold row_has in Hhas. induction r as [| kv r IH]; simpl in *; [discriminate |].
    destruct (String.eqb name (fst kv)) eqn:E; simpl.
    + rewrite String.eqb_refl. reflexivity.
    + rewrite E. apply IH, Hhas.
  - rewrite find_app_None by (apply row_has_find, Hhas). simpl.
    rewrite String.eqb_refl. reflexivity.
Qed.

Lemma row_drop_app (names : list string) (r1 r2 : row) :
  row_drop names (r1 ++ r2) = row_drop names r1 ++ row_drop names r2.
Proof. unfold row_drop. apply filter_app. Qed.

Lemma row_drop_idem (names : list string) (r : row) :
  row_drop names (row_drop names r) = row_drop names r.
Proof.
  unfold row_drop. apply list_filter_filter_l. auto.
Qed.

Lemma row_drop_set (name : string) (v : cell) (r : row) :
  row_drop [name] (row_set name v r) = row_drop [name] r.
Proof.
  unfold row_set, row_drop. destruct (row_has name r).
  - induction r as [| kv r IH]; [reflexivity |]. simpl map.
    destruct (String.eqb_spec name kv.1) as [E | E].
    + rewrite (filter_cons_False _ (name, v))
        by (rewrite list_elem_of_singleton; simpl; tauto).
      rewrite (filter_cons_False _ kv)
        by (rewrite list_elem_of_singleton; simpl; intuition congruence).
      exact IH.
    + rewrite !filter_cons_True
        by (rewrite list_elem_of_singleton; simpl; congruence).
      rewrite IH. reflexivity.
  - rewrite filter_app. rewrite (filter_cons_False _ (name, v))
      by (rewrite list_elem_of_singleton; simpl; tauto).
    rewrite filter_nil, app_nil_r. reflexivity.
Qed.

Lemma row_set_idem (name : string) (v : cell) (r : row) :
  row_set name v (row_set name v r) = row_set name v r.
Proof.
  assert (Hhas : row_has name (row_set name v r) = true).
  { pose proof (row_get_set name v r) as Hget. unfold row_get in Hget.
    unfold row_has. destruct (find _ (row_set name v r)) as [kv |] eqn:Hf; [| discriminate].
    apply existsb_exists. exists kv.
    apply find_some in Hf. exact Hf. }
  unfold row_set at 1. rewrite Hhas.
  unfold row_set. destruct (row_has name r) eqn:Hr.
  - rewrite map_map. apply map_ext. intros kv.
    destruct (String.eqb name kv.1) eqn:E; simpl.
    + rewrite String.eqb_refl. reflexivity.
    + rewrite E. reflexivity.
  - rewrite map_app. simpl. rewrite String.eqb_refl. f_equal.
    clear Hhas. unfold row_has in Hr. induction r as [| kv r IH]; [reflexivity |].
    simpl in Hr. apply orb_false_elim in Hr as [E Hr].
    simpl. rewrite E, IH by exact Hr. reflexivity.
Qed.

Lemma setitem_idem (name : string) (v : cell) (df : DataFrame) :
  setitem name v (setitem name v df) = setitem name v df.
Proof.
  unfold setitem. simpl. f_equal.
  - destruct (decide (name ∈ columns df)) as [Hin | Hin].
    + rewrite decide_True by exact Hin. reflexivity.
    + rewrite decide_True; [reflexivity |].
      apply elem_of_app. right. apply list_elem_of_singleton. reflexivity.
  - rewrite map_map. apply map_ext. intros r. apply row_set_idem.
Qed.

Lemma setitem_column_is (name : string) (v : cell) (df : DataFrame) :
  column_is name v (setitem name v df).
Proof.
  split.
  - unfold setitem. simpl. destruct (decide (name ∈ columns df)) as [Hin | Hin].
    + exact Hin.
    + apply elem_of_app. right. apply list_elem_of_singleton. reflexivity.
  - unfold setitem. simpl. apply Forall_fmap, Forall_forall. intros r _.
    apply row_get_set.
Qed.

Lemma drop_columns_absent (name : string) (df out : DataFrame) :
  drop_columns name df = inr out -> name ∉ columns out.
Proof.
  unfold drop_columns. destruct (decide (name ∈ columns df)); [| discriminate].
  intros [= <-]. simpl. rewrite list_elem_of_filter, list_elem_of_singleton.
  tauto.
Qed.

(** What [combine_df] leaves in the store, whether or not the two
    arguments are the same object. *)
Lemma combine_df_store (h : heap) (df1 df2 : loc) (d1 d2 : DataFrame) :
  h !! df1 = Some d1 ->
  h !! df2 = Some d2 ->
  exists out,
    combine_df df1 df2 h =
      Some (<[df2 := setitem "j" (CInt 1) d2]> (<[df1 := setitem "j" (CInt 1) d1]> h),
            out) /\
    out = (let! m := merge (setitem "j" (CInt 1) d1) (setitem "j" (CInt 1) d2) in
           drop_columns "j" m).
Proof.
  intros H1 H2. unfold combine_df. rewrite H1.
  destruct (decide (df1 = df2)) as [-> | Hne].
  - assert (d1 = d2) as -> by congruence.
    rewrite lookup_insert_eq. rewrite !lookup_insert_eq.
    rewrite setitem_idem. eexists. split; reflexivity.
  - rewrite lookup_insert_ne by exact Hne. rewrite H2.
    rewrite lookup_insert_ne by congruence.
    rewrite !lookup_insert_eq. eexists. split; reflexivity.
Qed.

Lemma filter_none {A} (P : A -> Prop) `{forall x, Decision (P x)} (l : list A) :
  (forall c, c ∈ l -> ~ P c) -> filter P l = [].
Proof.
  induction l as [| a l IH]; intros Hall; [reflexivity |].
  rewrite filter_cons_False by (apply Hall; left).
  apply IH. intros c Hc. apply Hall. right. exact Hc.
Qed.

Lemma filter_unique {A} (P : A -> Prop) `{forall x, Decision (P x)}
      (l : list A) (x : A) :
  NoDup l -> x ∈ l -> (forall c, c ∈ l -> (P c <-> c = x)) -> filter P l = [x].
Proof.
  induction l as [| a l IH]; intros Hnd Hx HP.
  - inversion Hx.
  - apply NoDup_cons in Hnd as [Ha Hnd].
    destruct (decide (P a)) as [HPa | HPa].
    + assert (a = x) as -> by (apply HP; [left | exact HPa]).
      rewrite filter_cons_True by exact HPa.
      f_equal. apply filter_none. intros c Hc HPc.
      apply HP in HPc; [| right; exact Hc]. congruence.
    + rewrite filter_cons_False by exact HPa.
      apply elem_of_cons in Hx as [Hx | Hx].
      { destruct HPa. apply HP; [left | congruence]. }
      apply IH; [exact Hnd | exact Hx |].
      intros c Hc. apply HP. right. exact Hc.
Qed.

Lemma setitem_columns_NoDup (name : string) (v : cell) (df : DataFrame) :
  NoDup (columns df) -> NoDup (columns (setitem name v df)).
Proof.
  intros Hnd. unfold setitem. simpl.
  destruct (decide (name ∈ columns df)) as [Hin | Hin]; [exact Hnd |].
  apply NoDup_app. split; [exact Hnd |]. split; [| apply NoDup_singleton].
  intros c Hc Hc'. apply list_elem_of_singleton in Hc'. congruence.
Qed.

Lemma setitem_columns_elem (name : string) (v : cell) (df : DataFrame) (c : string) :
  c ∈ columns (setitem name v df) <-> c ∈ columns df \/ c = name.
Proof.
  unfold setitem. simpl. destruct (decide (name ∈ columns df)) as [Hin | Hin].
  - split; [tauto |]. intros [Hc | ->]; assumption.
  - rewrite elem_of_app, list_elem_of_singleton. reflexivity.
Qed.

Lemma setitem_columns_without (name : string) (v : cell) (df : DataFrame) :
  filter (fun c => c ∉ [name]) (columns (setitem name v df)) =
  filter (fun c => c ∉ [name]) (columns df).
Proof.
  unfold setitem. simpl. destruct (decide (name ∈ columns df)); [reflexivity |].
  rewrite filter_app, filter_cons_False, filter_nil, app_nil_r; [reflexivity |].
  rewrite list_elem_of_singleton. tauto.
Qed.

Lemma setitem_rows_without (name : string) (v : cell) (df : DataFrame) :
  map (row_drop [name]) (rows (setitem name v df)) = map (row_drop [name]) (rows df).
Proof.
  unfold setitem. simpl rows. rewrite map_map.
  apply map_ext. intros r. apply row_drop_set.
Qed.

Lemma setitem_columns_new (name : string) (v : cell) (df : DataFrame) :
  name ∉ columns df -> columns (setitem name v df) = columns df ++ [name].
Proof.
  intros Hj. unfold setitem. simpl. rewrite decide_False by exact Hj. reflexivity.
Qed.

Lemma setitem_length (name : string) (v : cell) (df : DataFrame) :
  length (rows (setitem name v df)) = length (rows df).
Proof. unfold setitem. simpl. apply length_map. Qed.

(** C9: after any call of [combine_df] each of the two frames passed in
    has a column "j" whose entry is 1 in every row, and is otherwise the
    frame passed in: it has as many rows, and apart from "j" the same
    columns and the same cells, in order; a frame that had no column "j"
    has it as its last column.  No other frame of the store changes, and
    the table returned has no column "j". *)
Theorem combine_df_mutates_inputs :
  forall (h : heap) (df1 df2 : loc) (d1 d2 : DataFrame),
    h !! df1 = Some d1 ->
    h !! df2 = Some d2 ->
    exists h' out d1' d2',
      combine_df df1 df2 h = Some (h', out) /\
      h' !! df1 = Some d1' /\
      h' !! df2 = Some d2' /\
      column_is "j" (CInt 1) d1' /\
      column_is "j" (CInt 1) d2' /\
      length (rows d1') = length (rows d1) /\
      length (rows d2') = length (rows d2) /\
      map (row_drop ["j"]) (rows d1') = map (row_drop ["j"]) (rows d1) /\
      map (row_drop ["j"]) (rows d2') = map (row_drop ["j"]) (rows d2) /\
      filter (fun c => c ∉ ["j"]) (columns d1') =
        filter (fun c => c ∉ ["j"]) (columns d1) /\
      filter (fun c => c ∉ ["j"]) (columns d2') =
        filter (fun c => c ∉ ["j"]) (columns d2) /\
      ("j" ∉ columns d1 -> columns d1' = columns d1 ++ ["j"]) /\
      ("j" ∉ columns d2 -> columns d2' = columns d2 ++ ["j"]) /\
      (forall l, l <> df1 -> l <> df2 -> h' !! l = h !! l) /\
      (forall o, out = inr o -> "j" ∉ columns o).
Proof.
  intros h df1 df2 d1 d2 H1 H2.
  destruct (combine_df_store h df1 df2 d1 d2 H1 H2) as (out & Hc & Hout).
  eexists _, out, (setitem "j" (CInt 1) d1), (setitem "j" (CInt 1) d2).
  split; [exact Hc |].
  split.
  { destruct (decide (df1 = df2)) as [-> | Hne].
    - rewrite lookup_insert_eq. congruence.
    - rewrite lookup_insert_ne by congruence. apply lookup_insert_eq. }
  split; [apply lookup_insert_eq |].
  split; [apply setitem_column_is |].
  split; [apply setitem_column_is |].
  split; [apply setitem_length |].
  split; [apply setitem_length |].
  split; [apply setitem_rows_without |].
  split; [apply setitem_rows_without |].
  split; [apply setitem_columns_without |].
  split; [apply setitem_columns_without |].
  split; [apply setitem_columns_new |].
  split; [apply setitem_columns_new |].
  split.
  - intros l Hl1 Hl2. rewrite !lookup_insert_ne by congruence. reflexivity.
  - intros o ->. symmetry in Hout.
    destruct (merge _ _) as [e | m]; [discriminate |].
    simpl in Hout. eapply drop_columns_absent, Hout.
Qed.

Lemma combine_df_mutates_inputs_witness :
  exists h' out d1' d2',
    combine_df 0%nat 1%nat h0 = Some (h', out) /\
    h' !! 0%nat = Some d1' /\
    h' !! 1%nat = Some d2' /\
    column_is "j" (CInt 1) d1' /\
    column_is "j" (CInt 1) d2' /\
    length (rows d1') = length (rows A0) /\
    length (rows d2') = length (rows B0) /\
    map (row_drop ["j"]) (rows d1') = map (row_drop ["j"]) (rows A0) /\
    map (row_drop ["j"]) (rows d2') = map (row_drop ["j"]) (rows B0) /\
    filter (fun c => c ∉ ["j"]) (columns d1') =
      filter (fun c => c ∉ ["j"]) (columns A0) /\
    filter (fun c => c ∉ ["j"]) (columns d2') =
      filter (fun c => c ∉ ["j"]) (columns B0) /\
    ("j" ∉ columns A0 -> columns d1' = columns A0 ++ ["j"]) /\
    ("j" ∉ columns B0 -> columns d2' = columns B0 ++ ["j"]) /\
    (forall l, l <> 0%nat -> l <> 1%nat -> h' !! l = h0 !! l) /\
    (forall o, out = inr o -> "j" ∉ columns o).
Proof.
  apply (combine_df_mutates_inputs h0 0%nat 1%nat A0 B0); reflexivity.
Defined.

Lemma map_fst_row_drop (names : list string) (r : row) :
  map fst (row_drop names r) = filter (fun c => c ∉ names) (map fst r).
Proof.
  unfold row_drop. induction r as [| kv r IH]; [reflexivity |].
  simpl map. destruct (decide (kv.1 ∉ names)) as [Hkv | Hkv].
  - rewrite !filter_cons_True by exact Hkv. simpl. rewrite IH. reflexivity.
  - rewrite !filter_cons_False by exact Hkv. exact IH.
Qed.

Lemma keys_match_j (a b : row) :
  keys_match ["j"] (row_set "j" (CInt 1) a) (row_set "j" (CInt 1) b) = true.
Proof. unfold keys_match. simpl. rewrite !row_get_set. reflexivity. Qed.

#[local] Arguments keys_match : simpl never.

Lemma merged_rows_cross (ra rb : list row) :
  map (row_drop ["j"])
    (flat_map (fun l =>
       flat_map (fun r => if keys_match ["j"] l r then [l ++ row_drop ["j"] r] else [])
                (map (row_set "j" (CInt 1)) rb))
       (map (row_set "j" (CInt 1)) ra))
  = cross ra rb.
Proof.
  unfold cross. induction ra as [| a ra IHa]; [reflexivity |].
  simpl. rewrite map_app, IHa. f_equal. clear IHa.
  induction rb as [| b rb IHb]; [reflexivity |].
  simpl. rewrite keys_match_j. simpl. rewrite IHb. f_equal.
  rewrite row_drop_app, row_drop_idem, !row_drop_set. reflexivity.
Qed.

Lemma cross_length (ra rb : list row) :
  length (cross ra rb) = (length ra * length rb)%nat.
Proof.
  unfold cross. induction ra as [| a ra IH]; [reflexivity |].
  simpl. rewrite length_app, length_map, IH. reflexivity.
Qed.

Lemma merge_keys_j (A B : DataFrame) :
  NoDup (columns A) ->
  (forall c, c ∈ columns A -> c ∈ columns B -> c = "j") ->
  filter (fun c => c ∈ columns (setitem "j" (CInt 1) B))
         (columns (setitem "j" (CInt 1) A)) = ["j"].
Proof.
  intros Hnd Hdisj. apply filter_unique.
  - apply setitem_columns_NoDup, Hnd.
  - apply setitem_columns_elem. right. reflexivity.
  - intros c Hc. rewrite setitem_columns_elem. rewrite setitem_columns_elem in Hc.
    split; [| intros ->; right; reflexivity].
    intros [HcB | ->]; [| reflexivity].
    destruct Hc as [HcA | ->]; [apply Hdisj; assumption | reflexivity].
Qed.

(** The value [combine_df] returns on two frames whose only possible
    common column is "j". *)
Lemma combine_result_cross (A B : DataFrame) :
  NoDup (columns A) ->
  (forall c, c ∈ columns A -> c ∈ columns B -> c = "j") ->
  (let! m := merge (setitem "j" (CInt 1) A) (setitem "j" (CInt 1) B) in
   drop_columns "j" m) =
  inr {| columns := filter (fun c => c ∉ ["j"]) (columns A) ++
                    filter (fun c => c ∉ ["j"]) (columns B);
         rows := cross (rows A) (rows B) |}.
Proof.
  intros Hnd Hdisj. unfold merge. rewrite (merge_keys_j A B Hnd Hdisj).
  unfold bind, ret, drop_columns. simpl columns at 1.
  rewrite decide_True.
  2: { apply elem_of_app. left. apply setitem_columns_elem. right. reflexivity. }
  f_equal. f_equal.
  - pose proof (setitem_columns_without "j" (CInt 1) A) as HA.
    pose proof (setitem_columns_without "j" (CInt 1) B) as HB.
    unfold setitem in HA, HB. simpl in HA, HB.
    simpl columns. rewrite filter_app, HA.
    f_equal. rewrite list_filter_filter_l by auto. exact HB.
  - simpl rows. apply merged_rows_cross.
Qed.

(** C4, counterexample: when the two tables share a column besides "j"
    the merge joins on it too; a one-row table combined with a two-row
    table then gives one row, not two. *)
Lemma combine_df_shared_column :
  length (rows A1) = 1%nat /\ length (rows B1) = 2%nat /\
  snd <$> combine_df 0%nat 1%nat h1 =
    Some (inr {| columns := ["model"; "value"];
                 rows := [[("model", CStr "m1"); ("value", CInt 1)]] |}) /\
  ~ (exists h' out, combine_df 0%nat 1%nat h1 = Some (h', inr out) /\
                    length (rows out) = length (rows B1)).
Proof.
  assert (Hrun : snd <$> combine_df 0%nat 1%nat h1 =
    Some (inr {| columns := ["model"; "value"];
                 rows := [[("model", CStr "m1"); ("value", CInt 1)]] |})).
  { vm_compute. reflexivity. }
  split; [reflexivity |]. split; [reflexivity |]. split; [exact Hrun |].
  intros (h' & out & Hc & Hlen). rewrite Hc in Hrun. simpl in Hrun.
  injection Hrun as ->. discriminate Hlen.
Qed.

(** C4, amended: for two well-formed tables A and B that have no column
    in common (other than possibly "j"), [combine_df] returns the row-wise
    cross product of A and B without the column "j": every row carries
    every other column of A and of B, and when A has exactly one row the
    result has as many rows as B. *)
Theorem combine_df_cross_product :
  forall (h : heap) (df1 df2 : loc) (A B : DataFrame),
    h !! df1 = Some A ->
    h !! df2 = Some B ->
    wf A -> wf B ->
    (forall c, c ∈ columns A -> c ∈ columns B -> c = "j") ->
    exists h' out,
      combine_df df1 df2 h = Some (h', inr out) /\
      columns out = filter (fun c => c ∉ ["j"]) (columns A) ++
                    filter (fun c => c ∉ ["j"]) (columns B) /\
      rows out = cross (rows A) (rows B) /\
      length (rows out) = (length (rows A) * length (rows B))%nat /\
      (length (rows A) = 1%nat -> length (rows out) = length (rows B)) /\
      Forall (fun r => map fst r = columns out) (rows out).
Proof.
  intros h df1 df2 A B H1 H2 [HndA HrA] [HndB HrB] Hdisj.
  destruct (combine_df_store h df1 df2 A B H1 H2) as (out & Hc & Hout).
  rewrite (combine_result_cross A B HndA Hdisj) in Hout. subst out.
  eexists _, _. split; [exact Hc |]. simpl.
  split; [reflexivity |]. split; [reflexivity |].
  split; [apply cross_length |].
  split; [intros Hone; rewrite cross_length, Hone; lia |].
  unfold cross. apply Forall_forall. intros r Hr.
  apply list_elem_of_In, in_flat_map in Hr as (a & Ha & Hr).
  apply in_map_iff in Hr as (b & <- & Hb).
  rewrite Forall_forall in HrA, HrB.
  rewrite map_app, !map_fst_row_drop.
  rewrite (HrA a), (HrB b) by (apply list_elem_of_In; assumption).
  reflexivity.
Qed.

Lemma combine_df_cross_product_witness :
  exists h' out,
    combine_df 0%nat 1%nat h0 = Some (h', inr out) /\
    columns out = filter (fun c => c ∉ ["j"]) (columns A0) ++
                  filter (fun c => c ∉ ["j"]) (columns B0) /\
    rows out = cross (rows A0) (rows B0) /\
    length (rows out) = (length (rows A0) * length (rows B0))%nat /\
    (length (rows A0) = 1%nat -> length (rows out) = length (rows B0)) /\
    Forall (fun r => map fst r = columns out) (rows out).
Proof.
  apply (combine_df_cross_product h0 0%nat 1%nat A0 B0).
  - reflexivity.
  - reflexivity.
  - split; [apply NoDup_singleton | repeat constructor].
  - split; [| repeat constructor].
    apply NoDup_cons. split; [| apply NoDup_singleton].
    rewrite list_elem_of_singleton. discriminate.
  - intros c HA HB. exfalso.
    apply list_elem_of_singleton in HA. subst c.
    apply elem_of_cons in HB as [HB | HB]; [discriminate |].
    apply list_elem_of_singleton in HB. discriminate.
Defined.

(** ** The driver loop *)

Section DriverProperties.

Context {T : Type}.
Variable env : Env T.

Lemma iteration_effect (w : world) (file : string) :
  written (iteration env w file) = written w ++ option_list (output_of env file) /\
  stdout (iteration env w file) = stdout w ++ option_list (diagnostic_of env file).
Proof.
  unfold iteration, output_of, diagnostic_of.
  destruct (process env file) as [e | o]; simpl; rewrite ?app_nil_r; auto.
Qed.

Lemma omap_cons_option_list {A B} (f : A -> option B) (a : A) (l : list A) :
  omap f (a :: l) = option_list (f a) ++ omap f l.
Proof. simpl. destruct (f a); reflexivity. Qed.

Lemma driver_effect (zstore : list string) (w : world) :
  written (driver env zstore w) = written w ++ omap (output_of env) zstore /\
  stdout (driver env zstore w) = stdout w ++ omap (diagnostic_of env) zstore.
Proof.
  revert w. induction zstore as [| file zstore IH]; intros w.
  - simpl. rewrite !app_nil_r. auto.
  - unfold driver. simpl fold_left.
    destruct (IH (iteration env w file)) as [IHw IHs].
    destruct (iteration_effect w file) as [Hw Hs].
    unfold driver in IHw, IHs.
    rewrite IHw, IHs, Hw, Hs, !omap_cons_option_list, !app_assoc. auto.
Qed.

Lemma process_raises_global_mean (file : string) :
  raises (global_mean env file) -> raises (process env file).
Proof.
  intros [e He]. unfold process. rewrite He. exists e. reflexivity.
Qed.

Lemma all_fail_effect (zstore : list string) :
  Forall (fun file => raises (process env file)) zstore ->
  omap (output_of env) zstore = [] /\
  omap (diagnostic_of env) zstore = map (fun file => "problem with " +:+ file) zstore.
Proof.
  induction 1 as [| file zstore [e He] _ [IHw IHs]]; [auto |].
  rewrite !omap_cons_option_list, IHw, IHs.
  unfold output_of, diagnostic_of. rewrite He. auto.
Qed.

(** C7: the loop is a total function of the catalog: whatever fails, it
    runs through every file.  A file whose processing raises adds exactly
    one line, "problem with" followed by its name, and writes nothing; the
    other files are written as if it were not there: the tables written
    and the lines printed are those of the files taken one by one, in
    order.  When every file fails nothing is written and one line per file
    is printed. *)
Theorem driver_skips_failed_files :
  forall (zstore : list string) (w : world),
    written (driver env zstore w) = written w ++ omap (output_of env) zstore /\
    stdout (driver env zstore w) = stdout w ++ omap (diagnostic_of env) zstore /\
    (forall before file after,
       zstore = before ++ file :: after ->
       raises (process env file) ->
       iteration env (driver env before w) file =
         mkWorld (written (driver env before w))
                 (stdout (driver env before w) ++ ["problem with " +:+ file]) /\
       driver env zstore w =
         driver env after (iteration env (driver env before w) file) /\
       written (driver env zstore w) =
         written w ++ omap (output_of env) before ++ omap (output_of env) after) /\
    (forall file, raises (global_mean env file) -> raises (process env file)) /\
    (Forall (fun file => raises (process env file)) zstore ->
     written (driver env zstore w) = written w /\
     stdout (driver env zstore w) =
       stdout w ++ map (fun file => "problem with " +:+ file) zstore).
Proof.
  intros zstore w.
  destruct (driver_effect zstore w) as [Hw Hs].
  split; [exact Hw |]. split; [exact Hs |]. split; [| split].
  - intros before file after -> [e He]. split; [| split].
    + unfold iteration. rewrite He. reflexivity.
    + unfold driver. rewrite fold_left_app. reflexivity.
    + rewrite Hw, omap_app, omap_cons_option_list.
      unfold output_of at 2. rewrite He. reflexivity.
  - apply process_raises_global_mean.
  - intros Hall. rewrite Hw, Hs. clear Hw Hs.
    destruct (all_fail_effect zstore Hall) as [-> ->].
    rewrite app_nil_r. auto.
Qed.

End DriverProperties.

(** ** The reducer *)

Lemma bind_inl {A B} (e : exn) (k : A -> result B) : bind (inl e) k = inl e.
Proof. reflexivity. Qed.

Lemma bind_inr {A B} (a : A) (k : A -> result B) : bind (inr a) k = k a.
Proof. reflexivity. Qed.

Lemma raises_bind {A B} (m : result A) (k : A -> result B) :
  (forall a, m = inr a -> raises (k a)) -> raises (bind m k).
Proof.
  intros Hk. destruct m as [e | a]; [apply raises_inl | apply Hk; reflexivity].
Qed.

Lemma mapM_vars_assoc_None {A B} (f : A -> result B) (name : string)
      (l : list (string * A)) (l' : list (string * B)) :
  mapM_vars f l = inr l' -> assoc name l = None -> assoc name l' = None.
Proof.
  revert l'. induction l as [| [k a] l IH]; intros l' Hm Ha; simpl in Hm.
  - injection Hm as <-. reflexivity.
  - destruct (f a) as [e | b]; [discriminate |]. simpl in Hm.
    destruct (mapM_vars f l) as [e | bs]; [discriminate |]. simpl in Hm.
    injection Hm as <-. simpl in *.
    destruct (String.eqb name k); [discriminate |]. apply IH; auto.
Qed.

Section ReducerProperties.

Context {T : Type}.
Variable env : Env T.

Lemma reduce_assoc_None (ds : Dataset T) (weight : list R) (rslt : Reduced T)
      (name : string) :
  reduce env ds weight = inr rslt ->
  assoc name (data_vars ds) = None ->
  assoc name (r_vars rslt) = None.
Proof.
  unfold reduce. intros Hred Hname.
  destruct (mapM_vars _ (data_vars ds)) as [e | vars] eqn:Hvars; [discriminate |].
  rewrite bind_inr in Hred.
  destruct (coarsen 12 (time_mean env) (time ds)) as [e | t]; [discriminate |].
  rewrite bind_inr in Hred. injection Hred as <-. simpl.
  eapply mapM_vars_assoc_None; eassumption.
Qed.

(** C10: the value column is read under the fixed name "tos": on every
    dataset without a variable of that name [global_mean] raises, whatever
    its variable_id says, and the driver skips the file with its one
    line. *)
Theorem global_mean_reads_tos :
  forall (path : string) (ds : Dataset T),
    open_zarr env path = inr ds ->
    assoc "tos" (data_vars ds) = None ->
    raises (global_mean env path) /\
    forall w,
      iteration env w path =
      mkWorld (written w) (stdout w ++ ["problem with " +:+ path]).
Proof.
  intros path ds Hopen Htos.
  assert (Hraises : raises (global_mean env path)).
  { unfold global_mean. rewrite Hopen, bind_inr.
    apply raises_bind. intros meta _.
    apply raises_bind. intros lat_name _.
    apply raises_bind. intros lat _.
    apply raises_bind. intros rslt Hred.
    apply raises_bind. intros year _.
    unfold getvar. rewrite (reduce_assoc_None _ _ _ _ Hred Htos).
    apply raises_inl. }
  split; [exact Hraises |].
  intros w. destruct Hraises as [e He].
  unfold iteration, process. rewrite He. reflexivity.
Qed.

End ReducerProperties.

(** ** A spatially constant field *)

Lemma coarsen_windows_constant {A} (agg : list A -> A) (k : nat) (v : A) :
  map agg (windows 12 (replicate (12 * k) v)) = replicate k (agg (replicate 12 v)).
Proof.
  symmetry. apply replicate_as_elem_of. split.
  - rewrite length_map, windows_length, length_replicate.
    rewrite Nat.mul_comm. apply Nat.div_mul. discriminate.
  - intros y Hy. unfold windows in Hy.
    apply list_elem_of_fmap in Hy as (win & -> & Hwin).
    apply list_elem_of_fmap in Hwin as (i & -> & Hi).
    apply elem_of_seq in Hi.
    rewrite length_replicate, Nat.mul_comm, Nat.div_mul in Hi by discriminate.
    rewrite drop_replicate, take_replicate.
    do 2 f_equal. lia.
Qed.

Lemma mapM_selstr_year (ts : list string) :
  Forall (fun t => (4 <= String.length t)%nat) ts ->
  mapM (fun x => selstr (Py.Str x) 0 4) ts = inr (map (substring 0 4) ts).
Proof.
  induction 1 as [| t ts Ht _ IH]; [reflexivity |].
  cbn [mapM]. rewrite selstr_substring by lia. rewrite bind_inr, IH. reflexivity.
Qed.

Lemma mapM_vars_total {A B} (f : A -> result B) (g : A -> B)
      (l : list (string * A)) :
  Forall (fun kv => f kv.2 = inr (g kv.2)) l ->
  mapM_vars f l = inr (map (fun kv => (kv.1, g kv.2)) l).
Proof.
  induction 1 as [| [k a] l Ha _ IH]; [reflexivity |].
  simpl in *. rewrite Ha, bind_inr, IH. reflexivity.
Qed.

Lemma assoc_map_values {A B} (g : A -> B) (name : string) (l : list (string * A)) :
  assoc name (map (fun kv => (kv.1, g kv.2)) l) = g <$> assoc name l.
Proof.
  induction l as [| [k a] l IH]; [reflexivity |].
  simpl. destruct (String.eqb name k); [reflexivity | exact IH].
Qed.

Lemma row_get_set_other (name other : string) (v : cell) (r : row) :
  name <> other -> row_get name (row_set other v r) = row_get name r.
Proof.
  intros Hne. unfold row_set, row_get.
  assert (Hno : String.eqb name other = false) by (apply String.eqb_neq, Hne).
  destruct (row_has other r).
  - induction r as [| kv r IH]; [reflexivity |]. simpl.
    destruct (String.eqb_spec other kv.1) as [E | E]; simpl.
    + rewrite Hno, <- E, Hno. exact IH.
    + destruct (String.eqb name kv.1); [reflexivity | exact IH].
  - induction r as [| kv r IH]; simpl.
    + rewrite Hno. reflexivity.
    + destruct (String.eqb name kv.1); [reflexivity | exact IH].
Qed.

(** The one-row table of metadata, whatever its five cells are. *)
Lemma get_ds_meta_inv {T} (ds : Dataset T) (meta : DataFrame) :
  get_ds_meta ds = inr meta ->
  exists meta_row,
    map fst meta_row = ["variable"; "experiment"; "units"; "ensemble"; "model"] /\
    meta = of_records ["variable"; "experiment"; "units"; "ensemble"; "model"]
             [meta_row].
Proof.
  unfold get_ds_meta. intros H.
  destruct (getattr ds "variable_id") as [? | v]; [discriminate |].
  rewrite bind_inr in H.
  destruct (getattr ds "experiment_id") as [? | experiment]; [discriminate |].
  rewrite bind_inr in H.
  destruct (match v with CStr name => getitem_attrs ds name | _ => _ end)
    as [? | var_attrs]; [discriminate |].
  rewrite bind_inr in H.
  destruct (dict_get var_attrs "units") as [? | units]; [discriminate |].
  rewrite bind_inr in H.
  destruct (dict_get (attrs ds) "variant_label") as [? | ensemble]; [discriminate |].
  rewrite bind_inr in H.
  destruct (getattr ds "source_id") as [? | model]; [discriminate |].
  rewrite bind_inr in H. injection H as <-.
  eexists. split; [| reflexivity]. reflexivity.
Qed.

Ltac nodup_strings :=
  repeat (apply NoDup_cons_2;
          [rewrite ?elem_of_cons, elem_of_nil; intuition discriminate |]);
  apply NoDup_nil_2.

Section ConstantField.

Context {T : Type}.
Variable env : Env T.

Lemma reduce_total (ds : Dataset T) (weight : list R) :
  time ds <> [] ->
  (length (time ds) mod 12 = 0)%nat ->
  Forall (fun kv => length (da_values kv.2) = length (time ds)) (data_vars ds) ->
  reduce env ds weight =
  inr (mkReduced (map (time_mean env) (windows 12 (time ds)))
         (map (fun kv => (kv.1, map (mean_in (arith env))
                                  (windows 12 (weighted_mean (arith env) weight
                                                 (da_values kv.2)))))
              (data_vars ds))).
Proof.
  intros Hne Hmod Hvars. unfold reduce.
  rewrite (mapM_vars_total _
             (fun da => map (mean_in (arith env))
                          (windows 12 (weighted_mean (arith env) weight (da_values da))))).
  - rewrite bind_inr, coarsen_exact by assumption. reflexivity.
  - eapply Forall_impl; [exact Hvars |]. intros [name da] Hlen. simpl in *.
    assert (Hl : length (weighted_mean (arith env) weight (da_values da)) =
                 length (time ds))
      by (unfold weighted_mean; rewrite length_map; exact Hlen).
    apply coarsen_exact.
    + intros E. rewrite E in Hl. destruct (time ds); [congruence | discriminate].
    + rewrite Hl. exact Hmod.
Qed.

(** The table assembled from the metadata row, the year labels and a
    column of values. *)
Lemma assemble_values (P : R -> Prop) (meta_row : row) (years : list string)
      (vals : list R) :
  map fst meta_row = ["variable"; "experiment"; "units"; "ensemble"; "model"] ->
  length years = length vals ->
  Forall P vals ->
  let meta := of_records ["variable"; "experiment"; "units"; "ensemble"; "model"]
                         [meta_row] in
  exists df out,
    of_columns2 "year" (map CStr years) "value" (map CNum vals) = inr df /\
    combine_df 0%nat 1%nat (<[1%nat := df]> (<[0%nat := meta]> ∅)) =
      Some (<[1%nat := setitem "j" (CInt 1) df]>
              (<[0%nat := setitem "j" (CInt 1) meta]>
                 (<[1%nat := df]> (<[0%nat := meta]> ∅))), inr out) /\
    columns (setitem "area" (CStr "global") out) =
      ["variable"; "experiment"; "units"; "ensemble"; "model";
       "year"; "value"; "area"] /\
    length (rows (setitem "area" (CStr "global") out)) = length vals /\
    Forall (fun r => (exists v, row_get "value" r = Some (CNum v) /\ P v) /\
                     row_get "area" r = Some (CStr "global"))
           (rows (setitem "area" (CStr "global") out)).
Proof.
  intros Hkeys Hlen HP meta.
  set (df := {| columns := ["year"; "value"];
                rows := zip_with (fun x y => [("year", x); ("value", y)])
                          (map CStr years) (map CNum vals) |}).
  assert (Hdf : of_columns2 "year" (map CStr years) "value" (map CNum vals) = inr df).
  { unfold of_columns2. rewrite !length_map, Hlen.
    rewrite Nat.eqb_refl. reflexivity. }
  set (h := <[1%nat := df]> (<[0%nat := meta]> ∅) : heap).
  destruct (combine_df_store h 0%nat 1%nat meta df) as (res & Hc & Hres).
  { unfold h. rewrite lookup_insert_ne by discriminate. apply lookup_insert_eq. }
  { unfold h. apply lookup_insert_eq. }
  rewrite combine_result_cross in Hres.
  2: { simpl. nodup_strings. }
  2: { intros col HA HB. exfalso. simpl in HA, HB.
       rewrite !elem_of_cons, elem_of_nil in HA.
       rewrite !elem_of_cons, elem_of_nil in HB.
       destruct HB as [-> | [-> | []]]; intuition discriminate. }
  eexists df, _. split; [exact Hdf |].
  split; [rewrite Hres in Hc; exact Hc |].
  split; [| split].
  - vm_compute. reflexivity.
  - unfold setitem. simpl. rewrite length_map. unfold cross. simpl.
    rewrite app_nil_r, length_map, length_zip_with, !length_map.
    lia.
  - unfold setitem. simpl. apply Forall_fmap, Forall_forall. intros r Hr.
    simpl. split; [| apply row_get_set].
    rewrite row_get_set_other by discriminate.
    unfold cross in Hr. simpl in Hr. rewrite app_nil_r in Hr.
    apply list_elem_of_fmap in Hr as (b & -> & Hb).
    apply list_elem_of_lookup in Hb as (i & Hi).
    apply lookup_zip_with_Some in Hi as (x & y & -> & Hx & Hy).
    rewrite list_lookup_fmap in Hy.
    destruct (vals !! i) as [c' |] eqn:Hval; [| discriminate].
    injection Hy as <-.
    exists c'. split; [| exact (Forall_lookup_1 _ _ _ _ HP Hval)].
    destruct meta_row as [| [k1 v1] [| [k2 v2] [| [k3 v3] [| [k4 v4] [| [k5 v5] [| ? ?]]]]]];
      try discriminate Hkeys.
    injection Hkeys as -> -> -> -> ->.
    vm_compute. reflexivity.
Qed.


End ConstantField.

Lemma global_mean_reads_tos_witness :
  raises (global_mean (demo_env "thetao")
            "gs://cmip6/demo") /\
  forall w,
    iteration (demo_env "thetao") w "gs://cmip6/demo" =
    mkWorld (written w) (stdout w ++ ["problem with " +:+ "gs://cmip6/demo"]).
Proof.
  apply (global_mean_reads_tos (demo_env "thetao")
           "gs://cmip6/demo" (demo_ds "thetao")).
  - reflexivity.
  - reflexivity.
Defined.



(** * Further properties *)

(** ** More on the string slice helper *)

Lemma substring_whole (s : string) : substring 0 (String.length s) s = s.
Proof. induction s as [| c s IH]; simpl; [reflexivity | rewrite IH; reflexivity]. Qed.

Lemma string_of_list_ascii_app (l1 l2 : list ascii) :
  string_of_list_ascii (l1 ++ l2) =
  string_of_list_ascii l1 +:+ string_of_list_ascii l2.
Proof.
  induction l1 as [| c l1 IH]; [reflexivity |].
  simpl. rewrite IH. reflexivity.
Qed.

Lemma string_of_list_ascii_length (l : list ascii) :
  String.length (string_of_list_ascii l) = length l.
Proof. induction l as [| c l IH]; simpl; [reflexivity | rewrite IH; reflexivity]. Qed.

Lemma selstr_loop_length (s : string) (idx : list Z) (acc out : list ascii) :
  selstr_loop s idx acc = inr out -> length out = (length acc + length idx)%nat.
Proof.
  revert acc. induction idx as [| i idx IH]; intros acc H; simpl in H.
  - injection H as <-. simpl. lia.
  - destruct (Py.getitem s i) as [e | c]; [discriminate |].
    rewrite bind_inr in H. apply IH in H. rewrite H, length_app. simpl. lia.
Qed.

(** A slice that returns has met valid indices only. *)
Lemma selstr_returns_valid (s : string) (start stop : Z) (out : string) :
  selstr (Py.Str s) start stop = inr out ->
  forall i, (start <= i < stop)%Z -> valid_index s i.
Proof.
  intros H i Hi. destruct (decide (valid_index s i)) as [Hv | Hv]; [exact Hv |].
  unfold selstr in H. rewrite selstr_loop_invalid in H; [discriminate |].
  apply Exists_exists. exists i. split; [apply elem_of_range, Hi | exact Hv].
Qed.

Lemma map_seq_from {A} (f : nat -> A) (a b : nat) :
  map f (seq a b) = map (fun k => f (a + k)%nat) (seq 0 b).
Proof.
  revert a f. induction b as [| b IH]; intros a f; [reflexivity |].
  simpl. f_equal; [f_equal; lia |].
  rewrite (IH (S a) f), (IH 1%nat (fun k => f (a + k)%nat)).
  apply map_ext. intros k. f_equal. lia.
Qed.

Lemma range_split (start mid stop : Z) :
  (start <= mid <= stop)%Z ->
  Py.range start stop = Py.range start mid ++ Py.range mid stop.
Proof.
  intros H. unfold Py.range.
  replace (Z.to_nat (stop - start))
    with (Z.to_nat (mid - start) + Z.to_nat (stop - mid))%nat by lia.
  rewrite seq_app, map_app. f_equal.
  rewrite map_seq_from. apply map_ext. intros k. lia.
Qed.

Lemma range_shift (start stop d : Z) :
  Py.range (start + d) (stop + d) = map (fun i => (i + d)%Z) (Py.range start stop).
Proof.
  unfold Py.range. rewrite map_map.
  replace (stop + d - (start + d))%Z with (stop - start)%Z by lia.
  apply map_ext. intros k. lia.
Qed.

Lemma char_at_wrap (s : string) (i : Z) :
  char_at s (i - Z.of_nat (String.length s)) = char_at s i.
Proof.
  unfold char_at.
  replace (i - Z.of_nat (String.length s))%Z
    with (i + (-1) * Z.of_nat (String.length s))%Z by lia.
  rewrite Z_mod_plus_full. reflexivity.
Qed.

(** X1: the slice over the whole string gives the string back. *)
Theorem selstr_whole_string :
  forall s : string,
    selstr (Py.Str s) 0 (Z.of_nat (String.length s)) = inr s.
Proof.
  intros s. rewrite selstr_substring by lia.
  rewrite Z.sub_0_r, Nat2Z.id. simpl Z.to_nat. rewrite substring_whole.
  reflexivity.
Qed.

(** X2: whenever [selstr] returns, the string returned has exactly
    [stop - start] characters (none when [stop <= start]). *)
Theorem selstr_length :
  forall (a : Py.obj) (start stop : Z) (out : string),
    selstr a start stop = inr out ->
    String.length out = Z.to_nat (stop - start).
Proof.
  intros a start stop out H. destruct a as [s | | |]; try discriminate H.
  unfold selstr in H.
  destruct (selstr_loop s (Py.range start stop) []) as [e | l] eqn:Hl;
    [discriminate |].
  rewrite bind_inr in H. injection H as <-.
  apply selstr_loop_length in Hl.
  rewrite string_of_list_ascii_length, Hl. unfold Py.range.
  rewrite length_map, length_seq. reflexivity.
Qed.

Lemma selstr_length_witness :
  String.length "2005" = Z.to_nat (4 - 0).
Proof.
  apply (selstr_length (Py.Str "20050115") 0 4 "2005"). reflexivity.
Defined.

(** X3: two adjacent slices that return concatenate to the slice over
    the joined range. *)
Theorem selstr_adjacent :
  forall (s : string) (start mid stop : Z) (x y : string),
    (start <= mid <= stop)%Z ->
    selstr (Py.Str s) start mid = inr x ->
    selstr (Py.Str s) mid stop = inr y ->
    selstr (Py.Str s) start stop = inr (x +:+ y).
Proof.
  intros s start mid stop x y Hmid Hx Hy.
  pose proof (selstr_returns_valid _ _ _ _ Hx) as Vx.
  pose proof (selstr_returns_valid _ _ _ _ Hy) as Vy.
  rewrite selstr_valid in Hx by exact Vx.
  rewrite selstr_valid in Hy by exact Vy.
  injection Hx as <-. injection Hy as <-.
  rewrite selstr_valid.
  - rewrite (range_split start mid stop Hmid), map_app, string_of_list_ascii_app.
    reflexivity.
  - intros i Hi. destruct (Z.lt_ge_cases i mid); [apply Vx | apply Vy]; lia.
Qed.

Lemma selstr_adjacent_witness :
  selstr (Py.Str "20050115") 0 6 = inr ("2005" +:+ "01").
Proof.
  apply (selstr_adjacent "20050115" 0 4 6 "2005" "01"); [lia | reflexivity | reflexivity].
Defined.

(** X4: on an empty range ([stop <= start]) [selstr] returns the empty
    string for every string, also when [start] lies outside the string. *)
Theorem selstr_empty_range :
  forall (s : string) (start stop : Z),
    (stop <= start)%Z ->
    selstr (Py.Str s) start stop = inr "".
Proof.
  intros s start stop H. unfold selstr, Py.range.
  replace (Z.to_nat (stop - start)) with 0%nat by lia. reflexivity.
Qed.

Lemma selstr_empty_range_witness :
  selstr (Py.Str "abc") 7 2 = inr "".
Proof. apply (selstr_empty_range "abc" 7 2). lia. Defined.

(** X5: indices counted from the end select the same characters: the
    slice from [start - len] to [stop - len] equals the slice from [start]
    to [stop] inside the string. *)
Theorem selstr_negative_indices :
  forall (s : string) (start stop : Z),
    (0 <= start <= stop)%Z ->
    (stop <= Z.of_nat (String.length s))%Z ->
    selstr (Py.Str s) (start - Z.of_nat (String.length s))
                      (stop - Z.of_nat (String.length s)) =
    selstr (Py.Str s) start stop.
Proof.
  intros s start stop Hstart Hstop.
  rewrite !selstr_valid by (unfold valid_index; lia).
  do 2 f_equal.
  replace (start - Z.of_nat (String.length s))%Z
    with (start + - Z.of_nat (String.length s))%Z by lia.
  replace (stop - Z.of_nat (String.length s))%Z
    with (stop + - Z.of_nat (String.length s))%Z by lia.
  rewrite range_shift, map_map. apply map_ext. intros i.
  rewrite <- (char_at_wrap s i). reflexivity.
Qed.

Lemma selstr_negative_indices_witness :
  selstr (Py.Str "20050115") (0 - Z.of_nat (String.length "20050115"))
                             (4 - Z.of_nat (String.length "20050115")) =
  selstr (Py.Str "20050115") 0 4.
Proof.
  apply (selstr_negative_indices "20050115" 0 4); simpl; lia.
Defined.

(** ** More on the output file name *)

Lemma replace_go_cons0 (old new : string) (b : ascii) (s : string) :
  Py.replace_go old new 0 (String b s) =
  if String.prefix old (String b s)
  then new +:+ Py.replace_go old new (String.length old - 1) s
  else String b (Py.replace_go old new 0 s).
Proof. reflexivity. Qed.

Lemma prefix_char (c b : ascii) (s : string) :
  String.prefix (String c "") (String b s) = if ascii_dec c b then true else false.
Proof. simpl. destruct (ascii_dec c b); [apply prefix_nil | reflexivity]. Qed.

Lemma ofile_shape (path : string) :
  ofile path =
  "./global/" +:+ Py.replace (Py.replace path "/" "_") "gs:__cmip6_" "" +:+ ".csv".
Proof.
  unfold ofile, outdir.
  change ("./global/" +:+ Py.replace path "/" "_" +:+ ".csv")
    with ("./global" +:+ String "/" (Py.replace path "/" "_" +:+ String "." "csv")).
  rewrite replace_sep by (reflexivity || discriminate).
  rewrite replace_sep by (reflexivity || discriminate).
  reflexivity.
Qed.

(** Deleting occurrences brings in no character. *)
Lemma replace_go_delete_mem (old : string) (c : ascii) (s : string) :
  forall k, Py.mem c (Py.replace_go old "" k s) = true -> Py.mem c s = true.
Proof.
  induction s as [| b s IH]; intros k H; [exact H |].
  simpl Py.mem. destruct (Ascii.eqb c b) eqn:E; [reflexivity |].
  destruct k as [| k].
  - rewrite replace_go_cons0 in H.
    destruct (String.prefix old (String b s)).
    + rewrite append_nil_l in H. eapply IH, H.
    + simpl in H. rewrite E in H. eapply IH, H.
  - simpl in H. eapply IH, H.
Qed.

Lemma replace_char_no_mem (c d : ascii) (s : string) :
  c <> d -> Py.mem c (Py.replace s (String c "") (String d "")) = false.
Proof.
  intros Hcd. unfold Py.replace. induction s as [| b s IH]; [reflexivity |].
  rewrite replace_go_cons0, prefix_char.
  destruct (ascii_dec c b) as [-> | Hcb].
  - rewrite append_cons, append_nil_l.
    change (String.length (String b "") - 1)%nat with 0%nat.
    simpl Py.mem.
    replace (Ascii.eqb b d) with false
      by (symmetry; apply Ascii.eqb_neq; exact Hcd).
    exact IH.
  - simpl Py.mem. replace (Ascii.eqb c b) with false
      by (symmetry; apply Ascii.eqb_neq; exact Hcb).
    exact IH.
Qed.

Lemma replace_go_absent (old new : string) (s : string) :
  contains old s = false -> Py.replace_go old new 0 s = s.
Proof.
  induction s as [| b s IH]; intros H; [reflexivity |].
  change (contains old (String b s))
    with (String.prefix old (String b s) || contains old s) in H.
  apply orb_false_elim in H as [Hp Hc].
  rewrite replace_go_cons0, Hp, IH by exact Hc. reflexivity.
Qed.

Lemma contains_char (c : ascii) (s : string) :
  contains (String c "") s = Py.mem c s.
Proof.
  induction s as [| b s IH]; [reflexivity |].
  change (contains (String c "") (String b s))
    with (String.prefix (String c "") (String b s) || contains (String c "") s).
  rewrite prefix_char, IH. simpl Py.mem.
  destruct (ascii_dec c b) as [-> | Hcb].
  - rewrite Ascii.eqb_refl. reflexivity.
  - replace (Ascii.eqb c b) with false
      by (symmetry; apply Ascii.eqb_neq; exact Hcb).
    reflexivity.
Qed.

(** X6: the slash and the underscore are not told apart: two store paths
    that differ only in one of them for the other - two different paths -
    get the same output file. *)
Theorem ofile_collision :
  forall p q : string,
    p +:+ "/" +:+ q <> p +:+ "_" +:+ q /\
    ofile (p +:+ "/" +:+ q) = ofile (p +:+ "_" +:+ q).
Proof.
  intros p q. split.
  - intros H. apply String.app_inj in H. discriminate H.
  - unfold ofile. do 3 f_equal.
    rewrite !(replace_char_app "/" "_" p).
    rewrite (replace_char_app "/" "_" "/" q), (replace_char_app "/" "_" "_" q).
    reflexivity.
Qed.

(** X7: every output name is the output directory, a name without any
    slash, and ".csv": the file is written directly into the output
    directory, whatever the store path is. *)
Theorem ofile_flat :
  forall path : string,
    exists name,
      ofile path = "./global/" +:+ name +:+ ".csv" /\
      Py.mem "/" name = false.
Proof.
  intros path. eexists. split; [apply ofile_shape |].
  unfold Py.replace at 1.
  destruct (Py.mem "/" (Py.replace_go "gs:__cmip6_" "" 0 (Py.replace path "/" "_")))
    eqn:Hm; [| reflexivity].
  apply replace_go_delete_mem in Hm.
  rewrite replace_char_no_mem in Hm by discriminate. discriminate Hm.
Qed.

(** X8: a store path without slash and without the literal "gs:__cmip6_"
    is kept as it is between the output directory and ".csv". *)
Theorem ofile_plain_name :
  forall path : string,
    Py.mem "/" path = false ->
    contains "gs:__cmip6_" path = false ->
    ofile path = "./global/" +:+ path +:+ ".csv".
Proof.
  intros path Hslash Hlit. rewrite ofile_shape.
  assert (Hp : Py.replace path "/" "_" = path).
  { unfold Py.replace. apply replace_go_absent.
    rewrite contains_char. exact Hslash. }
  rewrite Hp. unfold Py.replace. rewrite replace_go_absent by exact Hlit.
  reflexivity.
Qed.

Lemma ofile_plain_name_witness :
  ofile "foo.zarr" = "./global/" +:+ "foo.zarr" +:+ ".csv".
Proof. apply (ofile_plain_name "foo.zarr"); reflexivity. Defined.

(** ** More on the coordinate resolver and the metadata record *)

(** X9: a name the resolver returns is one of the two accepted names and
    names a coordinate of the dataset, so looking that coordinate up (line
    112) cannot fail. *)
Theorem get_lat_name_names_coord :
  forall (T : Type) (ds : Dataset T) (lat_name : string),
    get_lat_name ds = inr lat_name ->
    (lat_name = "lat" \/ lat_name = "latitude") /\
    exists lat, coords ds !! lat_name = Some lat.
Proof.
  intros T ds lat_name. unfold get_lat_name, first_coord, ret, raise.
  destruct (decide (is_Some (coords ds !! "lat"))) as [[lat Hlat] | _].
  - intros [= <-]. split; [left; reflexivity | exists lat; exact Hlat].
  - destruct (decide (is_Some (coords ds !! "latitude"))) as [[lat Hlat] | _].
    + intros [= <-]. split; [right; reflexivity | exists lat; exact Hlat].
    + discriminate.
Qed.

Lemma get_lat_name_names_coord_witness :
  ("lat" = "lat" \/ "lat" = "latitude") /\
  exists lat, coords (demo_ds "tos") !! "lat" = Some lat.
Proof.
  apply (get_lat_name_names_coord nat (demo_ds "tos") "lat"). reflexivity.
Defined.

Lemma getattr_unshadowed {T} (ds : Dataset T) (name : string) :
  unshadowed ds ->
  name ∈ ["variable_id"; "experiment_id"; "source_id"] ->
  getattr ds name = match attrs ds !! name with
                    | Some v => inr (CStr v)
                    | None => inl (AttributeError name)
                    end.
Proof.
  intros Hds Hin. unfold unshadowed in Hds. rewrite Forall_forall in Hds.
  destruct (Hds name Hin) as [Hvar Hcoord].
  unfold getattr. rewrite Hvar, Hcoord. reflexivity.
Qed.

Lemma dict_get_inr (d : gmap string string) (key v : string) :
  dict_get d key = inr v <-> d !! key = Some v.
Proof.
  unfold dict_get, ret, raise. destruct (d !! key); split; congruence.
Qed.

Lemma getvar_inr {V} (vars : list (string * V)) (name : string) (v : V) :
  getvar vars name = inr v <-> assoc name vars = Some v.
Proof.
  unfold getvar, ret, raise. destruct (assoc name vars); split; congruence.
Qed.

Ltac attribute_names :=
  rewrite !elem_of_cons; auto.

(** X10: on a dataset where no variable or coordinate hides the
    attributes, [get_ds_meta] returns exactly when the dataset has the
    attributes variable_id, experiment_id, variant_label and source_id and
    holds, under the declared name, a variable or coordinate with a units
    attribute; the table returned is then the single row of these five
    strings under the columns variable, experiment, units, ensemble,
    model. *)
Theorem get_ds_meta_returns :
  forall (T : Type) (ds : Dataset T) (meta : DataFrame),
    unshadowed ds ->
    (get_ds_meta ds = inr meta <->
     exists v experiment units ensemble model var_attrs,
       attrs ds !! "variable_id" = Some v /\
       attrs ds !! "experiment_id" = Some experiment /\
       getitem_attrs ds v = inr var_attrs /\
       var_attrs !! "units" = Some units /\
       attrs ds !! "variant_label" = Some ensemble /\
       attrs ds !! "source_id" = Some model /\
       meta = {| columns := ["variable"; "experiment"; "units"; "ensemble"; "model"];
                 rows := [[("variable", CStr v);
                           ("experiment", CStr experiment);
                           ("units", CStr units);
                           ("ensemble", CStr ensemble);
                           ("model", CStr model)]] |}).
Proof.
  intros T ds meta Hds. unfold get_ds_meta.
  rewrite !(getattr_unshadowed ds _ Hds) by attribute_names.
  split.
  - intros H.
    destruct (attrs ds !! "variable_id") as [v |] eqn:E1; [| discriminate].
    rewrite bind_inr in H.
    destruct (attrs ds !! "experiment_id") as [experiment |] eqn:E2; [| discriminate].
    rewrite bind_inr in H.
    destruct (getitem_attrs ds v) as [? | var_attrs] eqn:E3; [discriminate |].
    rewrite bind_inr in H.
    destruct (dict_get var_attrs "units") as [? | units] eqn:E4; [discriminate |].
    rewrite bind_inr in H.
    destruct (dict_get (attrs ds) "variant_label") as [? | ensemble] eqn:E5;
      [discriminate |].
    rewrite bind_inr in H.
    destruct (attrs ds !! "source_id") as [model |] eqn:E6; [| discriminate].
    rewrite bind_inr in H. injection H as <-.
    exists v, experiment, units, ensemble, model, var_attrs.
    apply dict_get_inr in E4, E5. repeat split; assumption.
  - intros (v & experiment & units & ensemble & model & var_attrs &
            E1 & E2 & E3 & E4 & E5 & E6 & ->).
    apply dict_get_inr in E4, E5.
    rewrite E1, bind_inr, E2, bind_inr, E3, bind_inr, E4, bind_inr, E5, bind_inr,
      E6, bind_inr.
    reflexivity.
Qed.

Lemma unshadowed_demo (variable_id : string) :
  variable_id ∉ ["variable_id"; "experiment_id"; "source_id"] ->
  unshadowed (demo_ds variable_id).
Proof.
  intros Hv. unfold unshadowed. rewrite Forall_forall. intros name Hin.
  assert (Hne : name <> variable_id) by (intros ->; contradiction).
  split.
  - simpl. apply String.eqb_neq in Hne. rewrite Hne. reflexivity.
  - rewrite !elem_of_cons, elem_of_nil in Hin.
    destruct Hin as [-> | [-> | [-> | []]]]; reflexivity.
Qed.

Lemma get_ds_meta_returns_witness :
  get_ds_meta (demo_ds "tos") =
    inr {| columns := ["variable"; "experiment"; "units"; "ensemble"; "model"];
           rows := [[("variable", CStr "tos");
                     ("experiment", CStr "historical");
                     ("units", CStr "degC");
                     ("ensemble", CStr "r1i1p1f1");
                     ("model", CStr "DEMO-ESM")]] |} <->
  exists v experiment units ensemble model var_attrs,
    attrs (demo_ds "tos") !! "variable_id" = Some v /\
    attrs (demo_ds "tos") !! "experiment_id" = Some experiment /\
    getitem_attrs (demo_ds "tos") v = inr var_attrs /\
    var_attrs !! "units" = Some units /\
    attrs (demo_ds "tos") !! "variant_label" = Some ensemble /\
    attrs (demo_ds "tos") !! "source_id" = Some model /\
    {| columns := ["variable"; "experiment"; "units"; "ensemble"; "model"];
       rows := [[("variable", CStr "tos");
                 ("experiment", CStr "historical");
                 ("units", CStr "degC");
                 ("ensemble", CStr "r1i1p1f1");
                 ("model", CStr "DEMO-ESM")]] |} =
    {| columns := ["variable"; "experiment"; "units"; "ensemble"; "model"];
       rows := [[("variable", CStr v);
                 ("experiment", CStr experiment);
                 ("units", CStr units);
                 ("ensemble", CStr ensemble);
                 ("model", CStr model)]] |}.
Proof.
  apply (get_ds_meta_returns nat (demo_ds "tos")).
  apply unshadowed_demo. rewrite !elem_of_cons, elem_of_nil.
  intuition discriminate.
Defined.

(** X11: on a dataset where no variable or coordinate hides the
    attributes, what [get_ds_meta] raises follows the order in which the
    record is built: a missing variable_id or experiment_id attribute is
    an attribute error, then a declared name under which the dataset holds
    nothing makes the lookup raise, then missing units, then a missing
    variant_label (key errors), and last a missing source_id. *)
Theorem get_ds_meta_errors :
  forall (T : Type) (ds : Dataset T),
    unshadowed ds ->
    (attrs ds !! "variable_id" = None ->
     get_ds_meta ds = inl (AttributeError "variable_id")) /\
    (forall v,
       attrs ds !! "variable_id" = Some v ->
       (attrs ds !! "experiment_id" = None ->
        get_ds_meta ds = inl (AttributeError "experiment_id")) /\
       (forall experiment,
          attrs ds !! "experiment_id" = Some experiment ->
          (assoc v (data_vars ds) = None -> is_coord ds v = false ->
           raises (get_ds_meta ds)) /\
          (forall var_attrs,
             getitem_attrs ds v = inr var_attrs ->
             (var_attrs !! "units" = None ->
              get_ds_meta ds = inl (KeyError "units")) /\
             (forall units,
                var_attrs !! "units" = Some units ->
                (attrs ds !! "variant_label" = None ->
                 get_ds_meta ds = inl (KeyError "variant_label")) /\
                (forall ensemble,
                   attrs ds !! "variant_label" = Some ensemble ->
                   attrs ds !! "source_id" = None ->
                   get_ds_meta ds = inl (AttributeError "source_id")))))).
Proof.
  intros T ds Hds. unfold get_ds_meta.
  rewrite !(getattr_unshadowed ds _ Hds) by attribute_names.
  unfold dict_get, ret, raise.
  split; [intros ->; reflexivity |].
  intros v ->. rewrite bind_inr. split; [intros ->; reflexivity |].
  intros experiment ->. rewrite bind_inr. split.
  { intros Hvar Hcoord. unfold getitem_attrs. rewrite Hvar, Hcoord.
    apply raises_inl. }
  intros var_attrs ->. rewrite bind_inr. split; [intros ->; reflexivity |].
  intros units ->. rewrite bind_inr. split; [intros ->; reflexivity |].
  intros ensemble ->. rewrite bind_inr. intros ->. reflexivity.
Qed.

Lemma get_ds_meta_errors_witness :
  (attrs (demo_ds "tos") !! "variable_id" = None ->
   get_ds_meta (demo_ds "tos") = inl (AttributeError "variable_id")) /\
  (forall v,
     attrs (demo_ds "tos") !! "variable_id" = Some v ->
     (attrs (demo_ds "tos") !! "experiment_id" = None ->
      get_ds_meta (demo_ds "tos") = inl (AttributeError "experiment_id")) /\
     (forall experiment,
        attrs (demo_ds "tos") !! "experiment_id" = Some experiment ->
        (assoc v (data_vars (demo_ds "tos")) = None ->
         is_coord (demo_ds "tos") v = false ->
         raises (get_ds_meta (demo_ds "tos"))) /\
        (forall var_attrs,
           getitem_attrs (demo_ds "tos") v = inr var_attrs ->
           (var_attrs !! "units" = None ->
            get_ds_meta (demo_ds "tos") = inl (KeyError "units")) /\
           (forall units,
              var_attrs !! "units" = Some units ->
              (attrs (demo_ds "tos") !! "variant_label" = None ->
               get_ds_meta (demo_ds "tos") = inl (KeyError "variant_label")) /\
              (forall ensemble,
                 attrs (demo_ds "tos") !! "variant_label" = Some ensemble ->
                 attrs (demo_ds "tos") !! "source_id" = None ->
                 get_ds_meta (demo_ds "tos") = inl (AttributeError "source_id")))))).
Proof.
  apply (get_ds_meta_errors nat (demo_ds "tos")).
  apply unshadowed_demo. rewrite !elem_of_cons, elem_of_nil.
  intuition discriminate.
Defined.

(** ** More on the table combiner *)

Lemma combine_df_refs (h : heap) (df1 df2 : loc) (h' : heap)
      (out : result DataFrame) :
  combine_df df1 df2 h = Some (h', out) ->
  exists d1 d2, h !! df1 = Some d1 /\ h !! df2 = Some d2.
Proof.
  unfold combine_df. intros H.
  destruct (h !! df1) as [d1 |] eqn:H1; [| discriminate].
  destruct (decide (df1 = df2)) as [<- | Hne]; [eauto |].
  rewrite lookup_insert_ne in H by exact Hne.
  destruct (h !! df2) as [d2 |] eqn:H2; [eauto | discriminate].
Qed.

Lemma combine_df_store_lookups (h : heap) (df1 df2 : loc) (d1 d2 : DataFrame) :
  h !! df1 = Some d1 ->
  h !! df2 = Some d2 ->
  let h' := <[df2 := setitem "j" (CInt 1) d2]> (<[df1 := setitem "j" (CInt 1) d1]> h) in
  h' !! df1 = Some (setitem "j" (CInt 1) d1) /\
  h' !! df2 = Some (setitem "j" (CInt 1) d2).
Proof.
  intros H1 H2 h'. unfold h'. split; [| apply lookup_insert_eq].
  destruct (decide (df1 = df2)) as [-> | Hne].
  - rewrite lookup_insert_eq. congruence.
  - rewrite lookup_insert_ne by congruence. apply lookup_insert_eq.
Qed.

(** X12: calling [combine_df] a second time on the same two frames
    changes nothing more: the store stays as the first call left it and
    the same table is returned. *)
Theorem combine_df_twice :
  forall (h h' : heap) (df1 df2 : loc) (out : result DataFrame),
    combine_df df1 df2 h = Some (h', out) ->
    combine_df df1 df2 h' = Some (h', out).
Proof.
  intros h h' df1 df2 out H.
  destruct (combine_df_refs _ _ _ _ _ H) as (d1 & d2 & H1 & H2).
  destruct (combine_df_store h df1 df2 d1 d2 H1 H2) as (out0 & Hc & Hout0).
  rewrite Hc in H. injection H as <- <-.
  destruct (combine_df_store_lookups h df1 df2 d1 d2 H1 H2) as [L1 L2].
  destruct (combine_df_store _ df1 df2 _ _ L1 L2) as (out1 & Hc1 & Hout1).
  rewrite Hc1. rewrite !setitem_idem in *.
  rewrite (insert_id _ df1 _ L1), (insert_id _ df2 _ L2).
  congruence.
Qed.

Lemma combine_df_twice_witness :
  combine_df 0%nat 1%nat
    (<[1%nat := setitem "j" (CInt 1) B0]> (<[0%nat := setitem "j" (CInt 1) A0]> h0)) =
  Some (<[1%nat := setitem "j" (CInt 1) B0]> (<[0%nat := setitem "j" (CInt 1) A0]> h0),
        let! m := merge (setitem "j" (CInt 1) A0) (setitem "j" (CInt 1) B0) in
        drop_columns "j" m).
Proof.
  apply (combine_df_twice h0). reflexivity.
Defined.

Lemma length_flat_map_le {A B} (f : A -> list B) (n : nat) (l : list A) :
  (forall a, (length (f a) <= n)%nat) ->
  (length (flat_map f l) <= length l * n)%nat.
Proof.
  intros Hf. induction l as [| a l IH]; simpl; [lia |].
  rewrite length_app. specialize (Hf a). lia.
Qed.

Lemma merge_rows_bound (A B m : DataFrame) :
  merge A B = inr m ->
  (length (rows m) <= length (rows A) * length (rows B))%nat.
Proof.
  unfold merge.
  destruct (filter _ (columns A)) as [| k keys]; [discriminate |].
  intros [= <-]. simpl rows.
  apply length_flat_map_le. intros l.
  etransitivity; [apply (length_flat_map_le _ 1) |]; [| lia].
  intros r. destruct (keys_match _ l r); simpl; lia.
Qed.

(** X13: the table [combine_df] returns never has more rows than the
    product of the two row counts; in particular it has no row as soon as
    one of the two tables has none. *)
Theorem combine_df_rows_bound :
  forall (h : heap) (df1 df2 : loc) (A B : DataFrame),
    h !! df1 = Some A ->
    h !! df2 = Some B ->
    exists h' out,
      combine_df df1 df2 h = Some (h', out) /\
      forall o, out = inr o ->
        (length (rows o) <= length (rows A) * length (rows B))%nat /\
        (rows A = [] \/ rows B = [] -> rows o = []).
Proof.
  intros h df1 df2 A B H1 H2.
  destruct (combine_df_store h df1 df2 A B H1 H2) as (out & Hc & Hout).
  eexists _, out. split; [exact Hc |].
  intros o ->. symmetry in Hout.
  destruct (merge _ _) as [e | m] eqn:Hm; [discriminate |].
  rewrite bind_inr in Hout. unfold drop_columns in Hout.
  destruct (decide ("j" ∈ columns m)); [| discriminate].
  injection Hout as <-. simpl rows. rewrite length_map.
  apply merge_rows_bound in Hm. unfold setitem in Hm. simpl rows in Hm.
  rewrite !length_map in Hm.
  split; [exact Hm |].
  intros Hempty.
  assert (Hz : length (rows m) = 0%nat).
  { destruct Hempty as [E | E]; rewrite E in Hm; simpl in Hm; lia. }
  destruct (rows m); [reflexivity | discriminate Hz].
Qed.

Lemma combine_df_rows_bound_witness :
  exists h' out,
    combine_df 0%nat 1%nat h1 = Some (h', out) /\
    forall o, out = inr o ->
      (length (rows o) <= length (rows A1) * length (rows B1))%nat /\
      (rows A1 = [] \/ rows B1 = [] -> rows o = []).
Proof.
  apply (combine_df_rows_bound h1 0%nat 1%nat A1 B1); reflexivity.
Defined.

(** X14: [combine_df] changes nothing of its two arguments but the column
    "j": apart from that column each frame keeps its columns and the cells
    of its rows, in order, and a frame that had no column "j" gets it as
    its last column. *)
Theorem combine_df_touches_only_j :
  forall (h : heap) (df1 df2 : loc) (d1 d2 : DataFrame),
    h !! df1 = Some d1 ->
    h !! df2 = Some d2 ->
    exists h' out d1' d2',
      combine_df df1 df2 h = Some (h', out) /\
      h' !! df1 = Some d1' /\ h' !! df2 = Some d2' /\
      filter (fun c => c ∉ ["j"]) (columns d1') =
        filter (fun c => c ∉ ["j"]) (columns d1) /\
      map (row_drop ["j"]) (rows d1') = map (row_drop ["j"]) (rows d1) /\
      filter (fun c => c ∉ ["j"]) (columns d2') =
        filter (fun c => c ∉ ["j"]) (columns d2) /\
      map (row_drop ["j"]) (rows d2') = map (row_drop ["j"]) (rows d2) /\
      ("j" ∉ columns d1 -> columns d1' = columns d1 ++ ["j"]) /\
      ("j" ∉ columns d2 -> columns d2' = columns d2 ++ ["j"]).
Proof.
  intros h df1 df2 d1 d2 H1 H2.
  destruct (combine_df_store h df1 df2 d1 d2 H1 H2) as (out & Hc & _).
  destruct (combine_df_store_lookups h df1 df2 d1 d2 H1 H2) as [L1 L2].
  eexists _, out, _, _. split; [exact Hc |].
  split; [exact L1 |]. split; [exact L2 |].
  assert (Hrows : forall d,
    map (row_drop ["j"]) (rows (setitem "j" (CInt 1) d)) =
    map (row_drop ["j"]) (rows d)).
  { intros d. unfold setitem. simpl rows. rewrite map_map.
    apply map_ext. intros r. apply row_drop_set. }
  assert (Hcols : forall d, "j" ∉ columns d ->
    columns (setitem "j" (CInt 1) d) = columns d ++ ["j"]).
  { intros d Hj. unfold setitem. simpl. rewrite decide_False by exact Hj.
    reflexivity. }
  repeat split; auto using setitem_columns_without.
Qed.

Lemma combine_df_touches_only_j_witness :
  exists h' out d1' d2',
    combine_df 0%nat 1%nat h0 = Some (h', out) /\
    h' !! 0%nat = Some d1' /\ h' !! 1%nat = Some d2' /\
    filter (fun c => c ∉ ["j"]) (columns d1') =
      filter (fun c => c ∉ ["j"]) (columns A0) /\
    map (row_drop ["j"]) (rows d1') = map (row_drop ["j"]) (rows A0) /\
    filter (fun c => c ∉ ["j"]) (columns d2') =
      filter (fun c => c ∉ ["j"]) (columns B0) /\
    map (row_drop ["j"]) (rows d2') = map (row_drop ["j"]) (rows B0) /\
    ("j" ∉ columns A0 -> columns d1' = columns A0 ++ ["j"]) /\
    ("j" ∉ columns B0 -> columns d2' = columns B0 ++ ["j"]).
Proof.
  apply (combine_df_touches_only_j h0 0%nat 1%nat A0 B0); reflexivity.
Defined.

Lemma row_has_elem (name : string) (r : row) :
  row_has name r = true <-> name ∈ map fst r.
Proof.
  unfold row_has. rewrite existsb_exists, list_elem_of_In, in_map_iff. split.
  - intros (kv & Hin & E). apply String.eqb_eq in E. eauto.
  - intros (kv & E & Hin). exists kv. split; [exact Hin |].
    apply String.eqb_eq. congruence.
Qed.

Lemma map_fst_row_set (name : string) (v : cell) (r : row) :
  map fst (row_set name v r) =
  if row_has name r then map fst r else map fst r ++ [name].
Proof.
  unfold row_set. destruct (row_has name r).
  - rewrite map_map. apply map_ext. intros kv.
    destruct (String.eqb_spec name kv.1) as [-> | _]; reflexivity.
  - rewrite map_app. reflexivity.
Qed.

(** X15: assigning a scalar column ([df[name] = v], lines 90, 91 and
    127) keeps a table well formed: unique column labels, every row
    carrying exactly the columns. *)
Theorem setitem_keeps_wf :
  forall (name : string) (v : cell) (df : DataFrame),
    wf df -> wf (setitem name v df).
Proof.
  intros name v df [Hnd Hrows]. split; [apply setitem_columns_NoDup, Hnd |].
  unfold setitem. simpl. apply Forall_fmap, Forall_forall. intros r Hr. simpl.
  rewrite Forall_forall in Hrows. specialize (Hrows r Hr).
  rewrite map_fst_row_set, Hrows.
  destruct (decide (name ∈ columns df)) as [Hin | Hin].
  - replace (row_has name r) with true; [reflexivity |].
    symmetry. apply row_has_elem. rewrite Hrows. exact Hin.
  - destruct (row_has name r) eqn:E; [| reflexivity].
    apply row_has_elem in E. rewrite Hrows in E. contradiction.
Qed.

Lemma setitem_keeps_wf_witness : wf (setitem "area" (CStr "global") B0).
Proof.
  apply (setitem_keeps_wf "area" (CStr "global") B0).
  split; [| repeat constructor].
  apply NoDup_cons_2; [| apply NoDup_singleton].
  rewrite list_elem_of_singleton. discriminate.
Defined.

(** ** More on the weights *)

Open Scope R_scope.

Lemma mean_cos_pos (lat : list R) :
  lat <> [] ->
  Forall (fun x => -90 < x < 90) lat ->
  0 < mean (map (fun x => cos (deg2rad x)) lat).
Proof.
  intros Hne Hall. unfold mean. rewrite length_map.
  apply Rdiv_lt_0_compat.
  - apply sum_pos.
    + destruct lat; [congruence | discriminate].
    + apply Forall_fmap. eapply Forall_impl; [exact Hall |].
      intros x Hx. apply cos_deg2rad_pos, Hx.
  - apply lt_0_INR. destruct lat; [congruence | simpl; lia].
Qed.

(** X16: on a latitude axis strictly between the poles every weight is
    positive. *)
Theorem lat_weights_positive :
  forall lat : list R,
    Forall (fun x => -90 < x < 90) lat ->
    Forall (fun w => 0 < w) (lat_weights lat).
Proof.
  intros lat Hall. destruct lat as [| x0 lat]; [constructor |].
  pose proof (mean_cos_pos (x0 :: lat) ltac:(discriminate) Hall) as Hm.
  unfold lat_weights. apply Forall_fmap, Forall_fmap.
  eapply Forall_impl; [exact Hall |]. intros x Hx. simpl.
  apply Rdiv_lt_0_compat; [apply cos_deg2rad_pos, Hx | exact Hm].
Qed.

Lemma lat_weights_positive_witness :
  Forall (fun w => 0 < w) (lat_weights [-60; 0; 60]).
Proof.
  apply (lat_weights_positive [-60; 0; 60]). repeat constructor; lra.
Defined.

(** X17: the weights do not depend on the hemisphere: mirroring every
    latitude at the equator leaves the weight vector unchanged. *)
Theorem lat_weights_mirror :
  forall lat : list R,
    lat_weights (map Ropp lat) = lat_weights lat.
Proof.
  intros lat.
  assert (E : map (fun x => cos (deg2rad x)) (map Ropp lat) =
              map (fun x => cos (deg2rad x)) lat).
  { rewrite map_map. apply map_ext. intros x. unfold deg2rad.
    replace (- x * (PI / 180)) with (- (x * (PI / 180))) by ring.
    apply cos_neg. }
  unfold lat_weights. cbv zeta. rewrite E. reflexivity.
Qed.

Close Scope R_scope.

(** ** More on coarsening *)

(** X22: a series of fewer than twelve values never yields a yearly row:
    the coarsening raises, whether the series is empty or not. *)
Theorem coarsen_short_series :
  forall (A : Type) (agg : list A -> A) (xs : list A),
    (length xs < 12)%nat ->
    exists msg, coarsen 12 agg xs = inl (ValueError msg).
Proof.
  intros A agg xs Hlen. destruct xs as [| x xs].
  - apply coarsen_empty.
  - apply coarsen_inexact. rewrite Nat.mod_small by exact Hlen. discriminate.
Qed.

Lemma coarsen_short_series_witness :
  exists msg, coarsen 12 demo_time_mean [1; 2; 3]%nat = inl (ValueError msg).
Proof.
  apply (coarsen_short_series nat demo_time_mean [1; 2; 3]%nat). simpl. lia.
Defined.

(** ** More on the reducer *)

Lemma mapM_vars_assoc_Some {A B} (f : A -> result B) (name : string)
      (l : list (string * A)) (l' : list (string * B)) (b : B) :
  mapM_vars f l = inr l' ->
  assoc name l' = Some b ->
  exists a, assoc name l = Some a /\ f a = inr b.
Proof.
  revert l'. induction l as [| [k a] l IH]; intros l' Hm Hb; simpl in Hm.
  - injection Hm as <-. discriminate Hb.
  - destruct (f a) as [e | b0] eqn:Hf; [discriminate |]. rewrite bind_inr in Hm.
    destruct (mapM_vars f l) as [e | bs]; [discriminate |]. rewrite bind_inr in Hm.
    injection Hm as <-. simpl in *.
    destruct (String.eqb name k).
    + injection Hb as <-. eauto.
    + eapply IH; [reflexivity | exact Hb].
Qed.

Lemma mapM_selstr_year_inv (ts years : list string) :
  mapM (fun x => selstr (Py.Str x) 0 4) ts = inr years ->
  years = map (substring 0 4) ts.
Proof.
  revert years. induction ts as [| t ts IH]; intros years H.
  - injection H as <-. reflexivity.
  - cbn [mapM] in H.
    destruct (selstr (Py.Str t) 0 4) as [e | y] eqn:Hy; [discriminate |].
    rewrite bind_inr in H.
    destruct (mapM _ ts) as [e | ys]; [discriminate |].
    rewrite bind_inr in H. injection H as <-.
    rewrite (IH ys eq_refl). simpl map. f_equal.
    pose proof (selstr_returns_valid _ _ _ _ Hy 3%Z ltac:(lia)) as Hv.
    unfold valid_index in Hv.
    rewrite selstr_substring in Hy by lia. injection Hy as <-. reflexivity.
Qed.

Lemma of_columns2_inv (a b : string) (xs ys : list cell) (df : DataFrame) :
  of_columns2 a xs b ys = inr df ->
  length xs = length ys /\
  df = {| columns := [a; b];
          rows := zip_with (fun x y => [(a, x); (b, y)]) xs ys |}.
Proof.
  unfold of_columns2.
  destruct (Nat.eqb_spec (length xs) (length ys)) as [E | E]; [| discriminate].
  intros [= <-]. auto.
Qed.

Section ReducerOutput.

Context {T : Type}.
Variable env : Env T.

(** What a returned table is made of. *)
Lemma global_mean_explicit (path : string) (out : DataFrame) :
  global_mean env path = inr out ->
  exists ds meta_row lat_name lat da,
    open_zarr env path = inr ds /\
    get_ds_meta ds =
      inr (of_records ["variable"; "experiment"; "units"; "ensemble"; "model"]
             [meta_row]) /\
    map fst meta_row = ["variable"; "experiment"; "units"; "ensemble"; "model"] /\
    get_lat_name ds = inr lat_name /\
    coords ds !! lat_name = Some lat /\
    assoc "tos" (data_vars ds) = Some da /\
    time ds <> [] /\
    (length (time ds) mod 12 = 0)%nat /\
    (length (da_values da) mod 12 = 0)%nat /\
    length (windows 12 (time ds)) = length (windows 12 (da_values da)) /\
    out = {| columns := ["variable"; "experiment"; "units"; "ensemble"; "model";
                         "year"; "value"; "area"];
             rows := zip_with
                       (fun y val => meta_row ++ [("year", CStr y); ("value", CNum val);
                                                  ("area", CStr "global")])
                       (map (fun t => substring 0 4 (strftime env t))
                            (map (time_mean env) (windows 12 (time ds))))
                       (map (mean_in (arith env))
                            (windows 12
                               (weighted_mean (arith env)
                                  (lat_weights_in (arith env) lat) (da_values da)))) |}.
Proof.
  unfold global_mean. intros H.
  destruct (open_zarr env path) as [? | ds] eqn:Hopen; [discriminate |].
  rewrite bind_inr in H.
  destruct (get_ds_meta ds) as [? | meta] eqn:Hmeta; [discriminate |].
  rewrite bind_inr in H.
  destruct (get_lat_name ds) as [? | lat_name] eqn:Hname; [discriminate |].
  rewrite bind_inr in H.
  destruct (coords ds !! lat_name) as [lat |] eqn:Hlat; [| discriminate].
  rewrite bind_inr in H.
  destruct (reduce env ds (lat_weights_in (arith env) lat)) as [? | rslt] eqn:Hred;
    [discriminate |].
  rewrite bind_inr in H.
  destruct (mapM _ (map (strftime env) (r_time rslt))) as [? | year] eqn:Hyear;
    [discriminate |].
  rewrite bind_inr in H.
  destruct (getvar (r_vars rslt) "tos") as [? | val] eqn:Hval; [discriminate |].
  rewrite bind_inr in H.
  destruct (of_columns2 _ _ _ _) as [? | df] eqn:Hdf; [discriminate |].
  rewrite bind_inr in H.
  (* the metadata *)
  destruct (get_ds_meta_inv ds meta Hmeta) as (meta_row & Hkeys & ->).
  (* the reduction *)
  unfold reduce in Hred.
  destruct (mapM_vars _ (data_vars ds)) as [? | vars] eqn:Hvars; [discriminate |].
  rewrite bind_inr in Hred.
  destruct (coarsen 12 (time_mean env) (time ds)) as [? | t] eqn:Ht; [discriminate |].
  rewrite bind_inr in Hred. injection Hred as <-. simpl r_time in *. simpl r_vars in *.
  apply coarsen_inv in Ht as (Htne & Hmod & ->).
  apply getvar_inr in Hval.
  destruct (mapM_vars_assoc_Some _ _ _ _ _ Hvars Hval) as (da & Hda & Hcoarsen).
  apply coarsen_inv in Hcoarsen as (_ & Hmodv & ->).
  apply mapM_selstr_year_inv in Hyear. subst year.
  apply of_columns2_inv in Hdf as [Hlen ->].
  (* the cross join *)
  set (meta := of_records _ _) in *.
  set (df := {| columns := ["year"; "value"]; rows := _ |}) in *.
  set (h := <[1%nat := df]> (<[0%nat := meta]> ∅) : heap) in *.
  destruct (combine_df_store h 0%nat 1%nat meta df) as (res & Hc & Hres).
  { unfold h. rewrite lookup_insert_ne by discriminate. apply lookup_insert_eq. }
  { unfold h. apply lookup_insert_eq. }
  rewrite combine_result_cross in Hres.
  2: { simpl. nodup_strings. }
  2: { intros col HA HB. exfalso. simpl in HA, HB.
       rewrite !elem_of_cons, elem_of_nil in HA.
       rewrite !elem_of_cons, elem_of_nil in HB.
       destruct HB as [-> | [-> | []]]; intuition discriminate. }
  rewrite Hc, Hres, bind_inr in H. injection H as <-.
  exists ds, meta_row, lat_name, lat, da.
  unfold weighted_mean in Hmodv. rewrite length_map in Hmodv.
  rewrite !length_map in Hlen. unfold weighted_mean in Hlen.
  rewrite !windows_length, length_map in Hlen.
  rewrite !windows_length.
  repeat (split; [first [assumption | reflexivity] |]).
  unfold setitem, cross, df, meta, of_records. simpl columns. simpl rows.
  f_equal.
  rewrite app_nil_r.
  destruct meta_row as [| [k1 v1] [| [k2 v2] [| [k3 v3] [| [k4 v4] [| [k5 v5] [| ? ?]]]]]];
    try discriminate Hkeys.
  injection Hkeys as -> -> -> -> ->.
  generalize (map (mean_in (arith env))
                (windows 12 (weighted_mean (arith env)
                               (lat_weights_in (arith env) lat) (da_values da)))).
  generalize (map (time_mean env) (windows 12 (time ds))).
  clear. intros ts. induction ts as [| t ts IH]; intros [| y ys]; try reflexivity.
  simpl. rewrite IH. apply (f_equal (fun r => r :: _)).
  vm_compute. reflexivity.
Qed.

End ReducerOutput.

Lemma Forall_zip_with_intro {A B C} (P : C -> Prop) (g : A -> B -> C)
      (l : list A) (k : list B) :
  (forall x y, P (g x y)) -> Forall P (zip_with g l k).
Proof.
  intros HP. revert k. induction l as [| x l IH]; intros [| y k]; simpl;
    constructor; auto.
Qed.

Section ReducerShape.

Context {T : Type}.
Variable env : Env T.

(** X23: every table [global_mean] returns has the eight columns
    variable, experiment, units, ensemble, model, year, value, area in
    this order and is well formed; it has one row per complete year of the
    time axis (which is not empty and whose length is a multiple of 12),
    every row tagged "global" and carrying the five cells of the metadata
    record of the dataset. *)
Theorem global_mean_table_shape :
  forall (path : string) (out : DataFrame),
    global_mean env path = inr out ->
    columns out = ["variable"; "experiment"; "units"; "ensemble"; "model";
                   "year"; "value"; "area"] /\
    wf out /\
    exists ds meta_row,
      open_zarr env path = inr ds /\
      get_ds_meta ds =
        inr (of_records ["variable"; "experiment"; "units"; "ensemble"; "model"]
               [meta_row]) /\
      (length (time ds) mod 12 = 0)%nat /\
      (0 < length (rows out))%nat /\
      length (rows out) = (length (time ds) / 12)%nat /\
      Forall (fun r =>
                row_get "area" r = Some (CStr "global") /\
                forall c,
                  c ∈ ["variable"; "experiment"; "units"; "ensemble"; "model"] ->
                  row_get c r = row_get c meta_row)
             (rows out).
Proof.
  intros path out H.
  destruct (global_mean_explicit env path out H)
    as (ds & meta_row & lat_name & lat & da &
        Hopen & Hmeta & Hkeys & Hname & Hlat & Hda & Htne & Hmod & Hmodv & Hlen & ->).
  destruct meta_row as [| [k1 v1] [| [k2 v2] [| [k3 v3] [| [k4 v4] [| [k5 v5] [| ? ?]]]]]];
    try discriminate Hkeys.
  injection Hkeys as -> -> -> -> ->.
  split; [reflexivity |]. split.
  { split; [simpl; nodup_strings |]. simpl.
    apply Forall_zip_with_intro. intros y val. reflexivity. }
  eexists ds, _. split; [exact Hopen |]. split; [exact Hmeta |].
  split; [exact Hmod |].
  assert (Hrows : length (rows {|
            columns := ["variable"; "experiment"; "units"; "ensemble"; "model";
                        "year"; "value"; "area"];
            rows := zip_with
                      (fun y val =>
                         [("variable", v1); ("experiment", v2); ("units", v3);
                          ("ensemble", v4); ("model", v5)] ++
                         [("year", CStr y); ("value", CNum val);
                          ("area", CStr "global")])
                      (map (fun t => substring 0 4 (strftime env t))
                           (map (time_mean env) (windows 12 (time ds))))
                      (map (mean_in (arith env))
                           (windows 12
                              (weighted_mean (arith env)
                                 (lat_weights_in (arith env) lat) (da_values da)))) |}) =
                  (length (time ds) / 12)%nat).
  { simpl rows. rewrite length_zip_with, !length_map, !windows_length.
    unfold weighted_mean. rewrite length_map.
    rewrite !windows_length in Hlen. lia. }
  split; [| split; [exact Hrows |]].
  - rewrite Hrows. destruct (time ds) as [| t0 ts]; [congruence |].
    pose proof (Nat.div_mod_eq (length (t0 :: ts)) 12) as Hdm.
    simpl length in *. lia.
  - simpl rows. apply Forall_zip_with_intro. intros y val.
    split; [reflexivity |].
    intros c Hc. rewrite !elem_of_cons, elem_of_nil in Hc.
    destruct Hc as [-> | [-> | [-> | [-> | [-> | []]]]]]; reflexivity.
Qed.

Lemma reduce_incomplete (ds : Dataset T) (weight : list R) :
  (length (time ds) mod 12 <> 0)%nat -> raises (reduce env ds weight).
Proof.
  intros Hmod. unfold reduce. apply raises_bind. intros vars _.
  destruct (coarsen_inexact 12 (time_mean env) (time ds) Hmod) as [msg ->].
  apply raises_inl.
Qed.

(** X25: a store whose time axis is not a whole number of years gives no
    table: [global_mean] raises, and the driver writes nothing for the
    file and prints its line. *)
Theorem global_mean_incomplete_year :
  forall (path : string) (ds : Dataset T),
    open_zarr env path = inr ds ->
    (length (time ds) mod 12 <> 0)%nat ->
    raises (global_mean env path) /\
    output_of env path = None /\
    diagnostic_of env path = Some ("problem with " +:+ path).
Proof.
  intros path ds Hopen Hmod.
  assert (Hr : raises (global_mean env path)).
  { unfold global_mean. rewrite Hopen, bind_inr.
    apply raises_bind. intros meta _.
    apply raises_bind. intros lat_name _.
    apply raises_bind. intros lat _.
    apply raises_bind. intros rslt Hred.
    destruct (reduce_incomplete ds (lat_weights_in (arith env) lat) Hmod) as [e He].
    rewrite He in Hred. discriminate Hred. }
  split; [exact Hr |]. destruct Hr as [e He].
  unfold output_of, diagnostic_of, process. rewrite He. auto.
Qed.

End ReducerShape.

Lemma demo_out_returned :
  global_mean (demo_env "tos") "gs://cmip6/demo" = inr demo_out.
Proof.
  unfold demo_out.
  destruct (global_mean (demo_env "tos") "gs://cmip6/demo") as [e | out] eqn:E;
    [| reflexivity].
  exfalso. revert E. match goal with |- ?g = _ -> _ =>
    assert (Hex : exists out, g = inr out) end.
  { eexists. reflexivity. }
  destruct Hex as [out ->]. discriminate.
Qed.

Lemma global_mean_table_shape_witness :
  columns demo_out = ["variable"; "experiment"; "units"; "ensemble"; "model";
                      "year"; "value"; "area"] /\
  wf demo_out /\
  exists ds meta_row,
    open_zarr (demo_env "tos") "gs://cmip6/demo" = inr ds /\
    get_ds_meta ds =
      inr (of_records ["variable"; "experiment"; "units"; "ensemble"; "model"]
             [meta_row]) /\
    (length (time ds) mod 12 = 0)%nat /\
    (0 < length (rows demo_out))%nat /\
    length (rows demo_out) = (length (time ds) / 12)%nat /\
    Forall (fun r =>
              row_get "area" r = Some (CStr "global") /\
              forall c,
                c ∈ ["variable"; "experiment"; "units"; "ensemble"; "model"] ->
                row_get c r = row_get c meta_row)
           (rows demo_out).
Proof.
  apply (global_mean_table_shape (demo_env "tos") "gs://cmip6/demo" demo_out).
  apply demo_out_returned.
Defined.

Lemma global_mean_incomplete_year_witness :
  raises (global_mean demo_env_25 "gs://cmip6/demo") /\
  output_of demo_env_25 "gs://cmip6/demo" = None /\
  diagnostic_of demo_env_25 "gs://cmip6/demo" =
    Some ("problem with " +:+ "gs://cmip6/demo").
Proof.
  apply (global_mean_incomplete_year demo_env_25 "gs://cmip6/demo" demo_ds_25).
  - reflexivity.
  - simpl. discriminate.
Defined.

(** ** More on the driver loop and the catalog selection *)

Lemma prefix_app_iff (p s : string) :
  String.prefix p s = true <-> exists b, s = p +:+ b.
Proof.
  revert s. induction p as [| a p IH]; intros s.
  - rewrite prefix_nil. split; [intros _; exists s; reflexivity | reflexivity].
  - destruct s as [| c s]; simpl.
    + split; [discriminate | intros [b Hb]; discriminate Hb].
    + destruct (ascii_dec a c) as [-> | Hac].
      * rewrite IH. split; intros [b Hb]; exists b.
        -- rewrite Hb. reflexivity.
        -- rewrite append_cons in Hb. injection Hb as ->. reflexivity.
      * split; [discriminate |]. intros [b Hb].
        rewrite append_cons in Hb. injection Hb as -> _. congruence.
Qed.

(** [contains] is the substring test. *)
Lemma contains_iff (pat s : string) :
  contains pat s = true <-> exists a b, s = a +:+ pat +:+ b.
Proof.
  induction s as [| c s IH].
  - change (contains pat "") with (String.prefix pat "").
    rewrite prefix_app_iff. split.
    + intros [b Hb]. exists "", b. exact Hb.
    + intros (a & b & Hab). destruct a as [| ? a]; [| discriminate Hab].
      exists b. exact Hab.
  - change (contains pat (String c s))
      with (String.prefix pat (String c s) || contains pat s).
    rewrite orb_true_iff, prefix_app_iff, IH. split.
    + intros [[b Hb] | (a & b & Hab)].
      * exists "", b. exact Hb.
      * exists (String c a), b. rewrite Hab. reflexivity.
    + intros (a & b & Hab). destruct a as [| c' a].
      * left. exists b. exact Hab.
      * right. rewrite append_cons in Hab. injection Hab as -> ->. eauto.
Qed.

Lemma select_p1_sublist (catalog : list entry) :
  sublist (select_p1 catalog) catalog.
Proof.
  unfold select_p1. induction catalog as [| e catalog IH]; simpl; [constructor |].
  destruct (contains "p1" (member_id e)); constructor; exact IH.
Qed.

(** X27: the selection of line 26 keeps exactly the catalog rows whose
    member_id contains "p1", in their order, each row on its own: rows are
    not compared with one another, so several members of one model that
    all carry "p1" are all kept, and selecting again changes nothing. *)
Theorem select_p1_keeps :
  forall catalog : list entry,
    (forall e, e ∈ select_p1 catalog <->
               e ∈ catalog /\ exists a b, member_id e = a +:+ "p1" +:+ b) /\
    sublist (select_p1 catalog) catalog /\
    (forall more, select_p1 (catalog ++ more) = select_p1 catalog ++ select_p1 more) /\
    select_p1 (select_p1 catalog) = select_p1 catalog.
Proof.
  intros catalog. split; [| split; [| split]].
  - intros e. unfold select_p1.
    rewrite !list_elem_of_In, List.filter_In, contains_iff. reflexivity.
  - apply select_p1_sublist.
  - intros more. unfold select_p1. apply List.filter_app.
  - unfold select_p1. induction catalog as [| e catalog IH]; [reflexivity |].
    simpl. destruct (contains "p1" (member_id e)) eqn:E; [| exact IH].
    simpl. rewrite E, IH. reflexivity.
Qed.

Section DriverOutputs.

Context {T : Type}.
Variable env : Env T.

Lemma omap_lengths (zstore : list string) :
  (length (omap (output_of env) zstore) + length (omap (diagnostic_of env) zstore)
   = length zstore)%nat.
Proof.
  induction zstore as [| file zstore IH]; [reflexivity |].
  rewrite !omap_cons_option_list, !length_app.
  unfold output_of at 1, diagnostic_of at 1.
  destruct (process env file); simpl; lia.
Qed.

Lemma output_of_Some (file name : string) (df : DataFrame) :
  output_of env file = Some (name, df) ->
  name = ofile file /\ global_mean env file = inr df /\
  to_csv_error env df name = None.
Proof.
  unfold output_of, process. intros H.
  destruct (global_mean env file) as [e | out]; [discriminate |].
  rewrite bind_inr in H.
  destruct (to_csv_error env out (ofile file)) eqn:E; [discriminate |].
  injection H as <- <-. auto.
Qed.

(** X28: every file of the catalog is accounted for exactly once: the
    number of tables written plus the number of lines printed grows by the
    number of files given to the loop. *)
Theorem driver_accounts_for_every_file :
  forall (zstore : list string) (w : world),
    (length (written (driver env zstore w)) + length (stdout (driver env zstore w))
     = length (written w) + length (stdout w) + length zstore)%nat.
Proof.
  intros zstore w. destruct (driver_effect env zstore w) as [-> ->].
  rewrite !length_app. pose proof (omap_lengths zstore). lia.
Qed.

(** X29: every table the loop writes is the table [global_mean]
    returned for a file of the catalog, under the name derived from that
    file, with the eight columns of the result table; nothing else is
    written. *)
Theorem driver_writes_results_only :
  forall (zstore : list string) (w : world) (name : string) (df : DataFrame),
    (name, df) ∈ written (driver env zstore w) ->
    (name, df) ∈ written w \/
    exists file,
      file ∈ zstore /\ name = ofile file /\
      global_mean env file = inr df /\
      to_csv_error env df name = None /\
      columns df = ["variable"; "experiment"; "units"; "ensemble"; "model";
                    "year"; "value"; "area"].
Proof.
  intros zstore w name df Hin.
  destruct (driver_effect env zstore w) as [Hw _]. rewrite Hw in Hin.
  apply elem_of_app in Hin as [Hin | Hin]; [left; exact Hin | right].
  apply list_elem_of_omap in Hin as (file & Hfile & Hout).
  apply output_of_Some in Hout as (-> & Hgm & Hcsv).
  exists file. repeat split; try assumption.
  destruct (global_mean_explicit env file df Hgm)
    as (? & ? & ? & ? & ? & _ & _ & _ & _ & _ & _ & _ & _ & _ & _ & ->).
  reflexivity.
Qed.

(** X30: run on the table the catalog search returned, the script
    processes the stores of the rows whose member_id contains "p1" and no
    others: tables written plus lines printed count these rows, and every
    table written comes from such a row. *)
Theorem main_processes_p1_rows :
  forall (searched : list entry) (w : world),
    (length (written (main env searched w)) + length (stdout (main env searched w))
     = length (written w) + length (stdout w) + length (select_p1 searched))%nat /\
    (length (select_p1 searched) <= length searched)%nat /\
    forall name df,
      (name, df) ∈ written (main env searched w) ->
      (name, df) ∈ written w \/
      exists e,
        e ∈ searched /\ contains "p1" (member_id e) = true /\
        name = ofile (zstore e) /\ global_mean env (zstore e) = inr df.
Proof.
  intros searched w. unfold main.
  destruct (driver_effect env (map zstore (select_p1 searched)) w) as [Hw Hs].
  split; [| split].
  - rewrite Hw, Hs, !length_app.
    pose proof (omap_lengths (map zstore (select_p1 searched))) as Hl.
    rewrite length_map in Hl. lia.
  - apply sublist_length, select_p1_sublist.
  - intros name df Hin. rewrite Hw in Hin.
    apply elem_of_app in Hin as [Hin | Hin]; [left; exact Hin | right].
    apply list_elem_of_omap in Hin as (file & Hfile & Hout).
    apply output_of_Some in Hout as (-> & Hgm & _).
    apply list_elem_of_fmap in Hfile as (e & -> & He).
    unfold select_p1 in He. apply list_elem_of_In, List.filter_In in He as [He Hp].
    exists e. repeat split; try assumption. apply list_elem_of_In, He.
Qed.

End DriverOutputs.

Lemma driver_writes_results_only_witness :
  ("./global/demo.csv", demo_out) ∈ [] \/
  exists file,
    file ∈ ["gs://cmip6/demo"] /\ "./global/demo.csv" = ofile file /\
    global_mean (demo_env "tos") file = inr demo_out /\
    to_csv_error (demo_env "tos") demo_out "./global/demo.csv" = None /\
    columns demo_out = ["variable"; "experiment"; "units"; "ensemble"; "model";
                        "year"; "value"; "area"].
Proof.
  apply (driver_writes_results_only (demo_env "tos") ["gs://cmip6/demo"]
           (mkWorld [] []) "./global/demo.csv" demo_out).
  unfold driver. simpl fold_left. unfold iteration, process.
  rewrite demo_out_returned, bind_inr. simpl. apply list_elem_of_singleton.
  reflexivity.
Defined.
